(** * The Amazon provider of the superkey worker: forge and teardown

    A shallow embedding of [provider/amazon_provider.go]: the step
    interpreter [ForgeApplication], the payload templater
    [substiteInPayload], the naming helpers [getShortName] and
    [generateGUID], and the compensator [TearDown], with the theorems that
    settle what the specification says about them.

    Go strings are byte strings: they are [string]s, whose characters are
    the 8-bit [ascii].  Go maps are [gmap]s; reading a key that is absent
    gives the zero value of the element type, which is written out with
    [default].  The pointers the code follows without a test (the
    provider, its client, the request) are the objects themselves; a
    pointer the code receives from the client can be nil.  Logging is not
    modelled: the logger is written to and never read. *)

From Stdlib Require Import Strings.Ascii Strings.Byte NArith.
From stdpp Require Import gmap strings list fin_maps.

(** ** Strings *)

Module GoString.

Fixpoint drop (n : nat) (s : string) : string :=
  match n, s with
  | S k, String _ t => drop k t
  | _, _ => s
  end.

(** [HasPrefix s p]: [p] is found at the beginning of [s]. *)
Fixpoint HasPrefix (s p : string) {struct p} : bool :=
  match p, s with
  | "", _ => true
  | String x p', String y s' => if Ascii.eqb x y then HasPrefix s' p' else false
  | String _ _, "" => false
  end.

Fixpoint ContainsByte (s : string) (c : ascii) : bool :=
  match s with
  | "" => false
  | String x t => if Ascii.eqb x c then true else ContainsByte t c
  end.

(** [strings.LastIndex(s, c)] for a separator of one byte; [None] is
    Go's [-1]. *)
Fixpoint LastIndexByte (s : string) (c : ascii) : option nat :=
  match s with
  | "" => None
  | String x t =>
      match LastIndexByte t c with
      | Some i => Some (S i)
      | None => if Ascii.eqb x c then Some 0 else None
      end
  end.

(** The loop [for len(s) > 0 && s[len(s)-1] == c { s = s[:len(s)-1] }]. *)
Fixpoint TrimRightByte (s : string) (c : ascii) : string :=
  match s with
  | "" => ""
  | String x t =>
      match TrimRightByte t c with
      | "" => if Ascii.eqb x c then "" else String x ""
      | t' => String x t'
      end
  end.

(** The width in bytes of the first UTF-8 sequence of [s], as
    [utf8.DecodeRuneInString] reports it: an ill-formed or truncated
    sequence has width 1, the empty string width 0. *)
Definition continuation (lo hi : N) (c : ascii) : bool :=
  let b := N_of_ascii c in ((lo <=? b) && (b <=? hi))%N.

Definition RuneWidth (s : string) : nat :=
  match s with
  | "" => 0
  | String c0 t =>
      let b0 := N_of_ascii c0 in
      if ((b0 <? 194) || (244 <? b0))%N then 1
      else
        let sz := if (b0 <? 224)%N then 2 else if (b0 <? 240)%N then 3 else 4 in
        let lo := if (b0 =? 224)%N then 160%N else if (b0 =? 240)%N then 144%N else 128%N in
        let hi := if (b0 =? 237)%N then 159%N else if (b0 =? 244)%N then 143%N else 191%N in
        if String.length s <? sz then 1
        else
          match t with
          | String c1 (String c2 (String c3 _)) =>
              if negb (continuation lo hi c1) then 1
              else if sz <=? 2 then 2
              else if negb (continuation 128 191 c2) then 1
              else if sz <=? 3 then 3
              else if negb (continuation 128 191 c3) then 1
              else 4
          | String c1 (String c2 "") =>
              if negb (continuation lo hi c1) then 1
              else if sz <=? 2 then 2
              else if negb (continuation 128 191 c2) then 1
              else 3
          | String c1 "" =>
              if negb (continuation lo hi c1) then 1 else 2
          | "" => 1
          end
  end.

(** Replacement of a non-empty [old]: the scan goes from left to right;
    [skip] counts the bytes of a matched instance still to be passed
    over, so that instances do not overlap. *)
Fixpoint replaceScan (old new : string) (skip : nat) (s : string) : string :=
  match s with
  | "" => ""
  | String c t =>
      match skip with
      | S k => replaceScan old new k t
      | 0 =>
          if HasPrefix s old
          then new +:+ replaceScan old new (String.length old - 1) t
          else String c (replaceScan old new 0 t)
      end
  end.

(** Replacement of the empty [old]: [new] goes in after each UTF-8
    sequence; [left] counts the bytes left of the sequence being copied
    ([0] at the start of one). *)
Fixpoint afterRunes (new : string) (left : nat) (s : string) : string :=
  match s with
  | "" => ""
  | String c t =>
      match (match left with 0 => RuneWidth s | _ => left end) with
      | S (S k) => String c (afterRunes new (S k) t)
      | _ => String c (new +:+ afterRunes new 0 t)
      end
  end.

(** [strings.Replace(s, old, new, -1)]: every non-overlapping instance of
    [old] is replaced by [new]; an empty [old] matches at the beginning
    of the string and after each UTF-8 sequence. *)
Definition ReplaceAll (s old new : string) : string :=
  match old with
  | "" => new +:+ afterRunes new 0 s
  | _ => replaceScan old new 0 s
  end.

End GoString.

(** [path.Base]: the last element of a slash-separated path. *)
Module GoPath.

Definition Base (p : string) : string :=
  if decide (p = "") then "."
  else
    let p := GoString.TrimRightByte p "/"%char in
    let p := match GoString.LastIndexByte p "/"%char with
             | Some i => GoString.drop (S i) p
             | None => p
             end in
    if decide (p = "") then "/" else p.

End GoPath.

(** [hex.EncodeToString]: two lower-case digits for each byte. *)
Module GoHex.

Definition digit (n : N) : ascii :=
  match String.get (N.to_nat n) "0123456789abcdef" with
  | Some c => c
  | None => "0"%char
  end.

Fixpoint EncodeToString (src : list byte) : string :=
  match src with
  | [] => ""
  | b :: rest =>
      let n := Byte.to_N b in
      String (digit (n / 16)) (String (digit (n mod 16)) (EncodeToString rest))
  end.

End GoHex.

(** ** The remote resource client

    [amazon.Client] is an external collaborator: the provider only sees
    what its eight operations return.  An operation is a function of the
    calls made so far (the state of the client and of the remote side, as
    far as one run can tell) and of its arguments.  [error] is Go's
    interface of that name, [None] its [nil]; a [*string] result is an
    [option string], [None] being the nil pointer. *)

Definition error := string.

Module amazon.

Inductive Call :=
| CallCreateS3Bucket (name : string)
| CallCreatePolicy (name payload : string)
| CallCreateRole (name payload : string)
| CallBindPolicyToRole (policyArn roleName : string)
| CallUnBindPolicyToRole (policyArn roleName : string)
| CallDestroyPolicy (policyArn : string)
| CallDestroyRole (roleName : string)
| CallDestroyS3Bucket (name : string).

Record Client := {
  CreateS3Bucket : list Call -> string -> option error;
  CreatePolicy : list Call -> string -> string -> option string * option error;
  CreateRole : list Call -> string -> string -> option string * option error;
  BindPolicyToRole : list Call -> string -> string -> option error;
  UnBindPolicyToRole : list Call -> string -> string -> option error;
  DestroyPolicy : list Call -> string -> option error;
  DestroyRole : list Call -> string -> option error;
  DestroyS3Bucket : list Call -> string -> option error
}.

(** The error the client answers to call [c] after the calls [h]. *)
Definition failure (cl : Client) (h : list Call) (c : Call) : option error :=
  match c with
  | CallCreateS3Bucket n => CreateS3Bucket cl h n
  | CallCreatePolicy n p => snd (CreatePolicy cl h n p)
  | CallCreateRole n p => snd (CreateRole cl h n p)
  | CallBindPolicyToRole p r => BindPolicyToRole cl h p r
  | CallUnBindPolicyToRole p r => UnBindPolicyToRole cl h p r
  | CallDestroyPolicy p => DestroyPolicy cl h p
  | CallDestroyRole r => DestroyRole cl h r
  | CallDestroyS3Bucket n => DestroyS3Bucket cl h n
  end.

(** The pointer it answers, for the two operations that return one. *)
Definition pointer (cl : Client) (h : list Call) (c : Call) : option string :=
  match c with
  | CallCreatePolicy n p => fst (CreatePolicy cl h n p)
  | CallCreateRole n p => fst (CreateRole cl h n p)
  | _ => None
  end.

End amazon.

(** ** The request and the step ledger

    The [superkey] package is not part of the sources at hand; its types
    are declared with the fields this file reads and writes.

    An entry of [StepsCompleted] is the non-nil map that [MarkCompleted]
    stores.  Every read in this file is an index expression
    [f.StepsCompleted[k]], which gives the nil map both for an absent key
    and for a key bound to nil, so the ledger is represented by its non-nil
    entries and [f.StepsCompleted[k] != nil] is [is_Some]. *)

Module superkey.

Record Step := {
  Name : string;
  Payload : string;
  Substitutions : gmap string string
}.

Record CreateRequest := {
  ApplicationType : string;
  SuperKeySteps : list Step;
  Extra : gmap string string
}.

Record ForgedApplication {Provider : Type} := {
  StepsCompleted : gmap string (gmap string string);
  Request : CreateRequest;
  Client : Provider;
  GUID : string;
  resultUsername : option string;
  resultPassword : option string;
  resultExtra : option (gmap string string)
}.
Global Arguments ForgedApplication : clear implicits.

(** Modelled from the spec: [MarkCompleted] is not in the sources; the
    spec has a step "record the returned identifier(s) into
    [stepsCompleted[step.name]]", presence of the key being the sole
    record that the step ran to completion. *)
Definition MarkCompleted {P} (f : ForgedApplication P) (name : string)
    (data : gmap string string) : ForgedApplication P :=
  {| StepsCompleted := <[name := data]> (StepsCompleted f);
     Request := Request f; Client := Client f; GUID := GUID f;
     resultUsername := resultUsername f;
     resultPassword := resultPassword f;
     resultExtra := resultExtra f |}.

(** Modelled from the spec: [CreatePayload] is not in the sources; the
    spec has it set the final identity fields [resultUsername] and
    [resultPassword] from its first two arguments and leave
    [resultExtra] as it is.  The spec names no field that receives the
    third argument, so the ledger does not keep it. *)
Definition CreatePayload {P} (f : ForgedApplication P)
    (username password appType : option string) : ForgedApplication P :=
  {| StepsCompleted := StepsCompleted f;
     Request := Request f; Client := Client f; GUID := GUID f;
     resultUsername := username;
     resultPassword := password;
     resultExtra := resultExtra f |}.

End superkey.

Import superkey.

(** [m[k]] on a map of maps and on a map of strings. *)
Definition entry (m : gmap string (gmap string string)) (k : string) : gmap string string :=
  default ∅ (m !! k).
Definition value (m : gmap string string) (k : string) : string :=
  default "" (m !! k).

(** ** The provider *)

Record AmazonProvider := { Client : amazon.Client }.

Abbreviation Ledger := (ForgedApplication AmazonProvider).

(** [generateGUID]: eight bytes of [crypto/rand], in hexadecimal.  The
    bytes read are an argument. *)
Definition generateGUID (bytes : list byte) : string :=
  GoHex.EncodeToString bytes.

Definition getShortName (name : string) : string :=
  "redhat-" +:+ GoPath.Base name.

(** One turn of the loop of [substiteInPayload]. *)
Definition substitute (f : Ledger) (payload : string) (entry' : string * string) : string :=
  let '(name, sub) := entry' in
  if decide (sub = "get_account") then
    let accountNumber := value (Extra (Request f)) "account" in
    GoString.ReplaceAll payload name accountNumber
  else if decide (sub = "s3") then
    let s3name := value (entry (StepsCompleted f) "s3") "output" in
    GoString.ReplaceAll payload name s3name
  else payload.

(** [order] is the order in which this [range] statement visits the map;
    Go leaves it unspecified. *)
Definition substiteInPayload (order : gmap string string -> list (string * string))
    (payload : string) (f : Ledger) (substitutions : gmap string string) : string :=
  foldl (substitute f) payload (order substitutions).

(** ** State and control

    A run works on one ledger, the object its pointer [f] designates, and
    on the remote side through the client.  [World] holds both: the ledger
    and the calls made so far, oldest first.  A computation either returns
    a value or panics (a nil pointer is dereferenced); a panic ends the
    run and keeps the world as it was at that point. *)

Record World := {
  ledger : Ledger;
  calls : list amazon.Call
}.

Inductive Outcome (A : Type) :=
| Val (a : A)
| Panic.
Arguments Val {A} a.
Arguments Panic {A}.

Definition M (A : Type) : Type := World -> Outcome A * World.

Definition ret {A} (a : A) : M A := fun w => (Val a, w).

Definition bind {A B} (m : M A) (k : A -> M B) : M B :=
  fun w =>
    match m w with
    | (Val a, w') => k a w'
    | (Panic, w') => (Panic, w')
    end.

Notation "x <- m ;; k" := (bind m (fun x => k))
  (at level 100, m at next level, right associativity).
Notation "m ;;; k" := (bind m (fun _ => k))
  (at level 100, right associativity).

Definition panic {A} : M A := fun w => (Panic, w).

Definition load : M Ledger := fun w => (Val (ledger w), w).

Definition store (f : Ledger) : M unit :=
  fun w => (Val tt, {| ledger := f; calls := calls w |}).

Definition history : M (list amazon.Call) := fun w => (Val (calls w), w).

(** [*p]. *)
Definition deref {A} (p : option A) : M A :=
  match p with
  | Some v => ret v
  | None => panic
  end.

(** A call of the client: the answer is the client's, and the call joins
    the history. *)
Definition remote {R} (c : amazon.Call) (answer : list amazon.Call -> R) : M R :=
  fun w => (Val (answer (calls w)), {| ledger := ledger w; calls := calls w ++ [c] |}).

Section Provider.

(** The order in which a [range] statement visits a map, which the Go
    runtime chooses anew each time: it is given for each history. *)
Variable rangeOrder : list amazon.Call -> gmap string string -> list (string * string).

Variable a : AmazonProvider.

Definition markCompleted (name : string) (data : gmap string string) : M unit :=
  f <- load ;; store (MarkCompleted f name data).

(** The body of the loop of [ForgeApplication] for one step.  [Some err]
    is the [return f, err] that leaves the function. *)
Definition forgeStep (step : Step) : M (option error) :=
  if decide (Name step = "s3") then
    f <- load ;;
    let name := getShortName (ApplicationType (Request f)) +:+ "-bucket-" +:+ GUID f in
    err <- remote (amazon.CallCreateS3Bucket name)
             (fun h => amazon.CreateS3Bucket (Client a) h name) ;;
    match err with
    | Some e => ret (Some e)
    | None => markCompleted "s3" {[ "output" := name ]} ;;; ret None
    end
  else if decide (Name step = "policy") then
    f <- load ;;
    h <- history ;;
    let name := getShortName (ApplicationType (Request f)) +:+ "-policy-" +:+ GUID f in
    let payload := substiteInPayload (rangeOrder h) (Payload step) f (Substitutions step) in
    r <- remote (amazon.CallCreatePolicy name payload)
           (fun h => amazon.CreatePolicy (Client a) h name payload) ;;
    match snd r with
    | Some e => ret (Some e)
    | None =>
        arn <- deref (fst r) ;;
        markCompleted "policy" {[ "output" := arn ]} ;;; ret None
    end
  else if decide (Name step = "role") then
    f <- load ;;
    h <- history ;;
    let name := getShortName (ApplicationType (Request f)) +:+ "-role-" +:+ GUID f in
    let payload := substiteInPayload (rangeOrder h) (Payload step) f (Substitutions step) in
    r <- remote (amazon.CallCreateRole name payload)
           (fun h => amazon.CreateRole (Client a) h name payload) ;;
    match snd r with
    | Some e => ret (Some e)
    | None =>
        roleArn <- deref (fst r) ;;
        markCompleted "role" (<[ "output" := name ]> {[ "arn" := roleArn ]}) ;;;
        ret None
    end
  else if decide (Name step = "bind_role") then
    f <- load ;;
    let roleName := value (entry (StepsCompleted f) "role") "output" in
    let policyArn := value (entry (StepsCompleted f) "policy") "output" in
    err <- remote (amazon.CallBindPolicyToRole policyArn roleName)
             (fun h => amazon.BindPolicyToRole (Client a) h policyArn roleName) ;;
    match err with
    | Some e => ret (Some e)
    | None => markCompleted "bind_role" ∅ ;;; ret None
    end
  else ret None.

Fixpoint forgeSteps (steps : list Step) : M (option error) :=
  match steps with
  | [] => ret None
  | step :: rest =>
      r <- forgeStep step ;;
      match r with
      | Some e => ret (Some e)
      | None => forgeSteps rest
      end
  end.

Definition newLedger (request : CreateRequest) (guid : string) : Ledger :=
  {| StepsCompleted := ∅;
     Request := request;
     superkey.Client := a;
     GUID := guid;
     resultUsername := None;
     resultPassword := None;
     resultExtra := None |}.

(** [bytes] is what [crypto/rand] delivers to [generateGUID]. *)
Definition ForgeApplication (bytes : list byte) (request : CreateRequest)
    : M (Ledger * option error) :=
  store (newLedger request (generateGUID bytes)) ;;;
  r <- forgeSteps (SuperKeySteps request) ;;
  match r with
  | Some err => f <- load ;; ret (f, Some err)
  | None =>
      f <- load ;;
      let username := value (entry (StepsCompleted f) "role") "arn" in
      let appType := GoPath.Base (ApplicationType (Request f)) in
      store (CreatePayload f (Some username) None (Some appType)) ;;;
      f <- load ;; ret (f, None)
  end.

(** [TearDown] works on the ledger its argument points to, the one the
    world holds: four blocks, each guarded by the presence of an entry. *)
Definition TearDown : M (list error) :=
  let errors := [] in
  f <- load ;;
  errors <-
    (if decide (is_Some (StepsCompleted f !! "bind_role")) then
       let policyArn := value (entry (StepsCompleted f) "policy") "output" in
       let role := value (entry (StepsCompleted f) "role") "output" in
       err <- remote (amazon.CallUnBindPolicyToRole policyArn role)
                (fun h => amazon.UnBindPolicyToRole (Client a) h policyArn role) ;;
       ret (match err with Some e => errors ++ [e] | None => errors end)
     else ret errors) ;;
  f <- load ;;
  errors <-
    (if decide (is_Some (StepsCompleted f !! "policy")) then
       let policyArn := value (entry (StepsCompleted f) "policy") "output" in
       err <- remote (amazon.CallDestroyPolicy policyArn)
                (fun h => amazon.DestroyPolicy (Client a) h policyArn) ;;
       ret (match err with Some e => errors ++ [e] | None => errors end)
     else ret errors) ;;
  f <- load ;;
  errors <-
    (if decide (is_Some (StepsCompleted f !! "role")) then
       let roleName := value (entry (StepsCompleted f) "role") "output" in
       err <- remote (amazon.CallDestroyRole roleName)
                (fun h => amazon.DestroyRole (Client a) h roleName) ;;
       ret (match err with Some e => errors ++ [e] | None => errors end)
     else ret errors) ;;
  f <- load ;;
  errors <-
    (if decide (is_Some (StepsCompleted f !! "s3")) then
       let bucket := value (entry (StepsCompleted f) "s3") "output" in
       err <- remote (amazon.CallDestroyS3Bucket bucket)
                (fun h => amazon.DestroyS3Bucket (Client a) h bucket) ;;
       ret (match err with Some e => errors ++ [e] | None => errors end)
     else ret errors) ;;
  ret errors.

End Provider.

(** ** Notions the statements use *)

(** The step names [ForgeApplication] has a case for. *)
Definition recognized (name : string) : bool :=
  bool_decide (name ∈ ["s3"; "policy"; "role"; "bind_role"]).

(** The names under which the steps of a list are recorded when all of
    them complete. *)
Definition recordedNames (steps : list Step) : gset string :=
  list_to_set (filter (fun n => recognized n = true) (Name <$> steps)).

(** The answer to call [c] after the calls [h] is a success: no error,
    and the identifier where the operation returns one. *)
Definition succeeded (cl : amazon.Client) (h : list amazon.Call) (c : amazon.Call) : Prop :=
  amazon.failure cl h c = None /\
  match c with
  | amazon.CallCreatePolicy _ _ | amazon.CallCreateRole _ _ =>
      is_Some (amazon.pointer cl h c)
  | _ => True
  end.

(** Every call made from world [w] to world [w'] was a success. *)
Definition allSucceeded (cl : amazon.Client) (w w' : World) : Prop :=
  forall h c rest, calls w' = calls w ++ h ++ c :: rest -> succeeded cl (calls w ++ h) c.

(** The world after call [c]. *)
Definition called (w : World) (c : amazon.Call) : World :=
  {| ledger := ledger w; calls := calls w ++ [c] |}.

(** The world in which the loop of [ForgeApplication] starts: the fresh
    ledger, and the calls made before. *)
Definition started (a : AmazonProvider) (bytes : list byte) (request : CreateRequest)
    (w : World) : World :=
  {| ledger := newLedger a request (generateGUID bytes); calls := calls w |}.

(** The call the loop body makes for [step] in world [w]; [None] for a
    step that has no case. *)
Definition stepCall (rangeOrder : list amazon.Call -> gmap string string -> list (string * string))
    (step : Step) (w : World) : option amazon.Call :=
  let f := ledger w in
  let short := getShortName (ApplicationType (Request f)) in
  if decide (Name step = "s3") then
    Some (amazon.CallCreateS3Bucket (short +:+ "-bucket-" +:+ GUID f))
  else if decide (Name step = "policy") then
    Some (amazon.CallCreatePolicy (short +:+ "-policy-" +:+ GUID f)
            (substiteInPayload (rangeOrder (calls w)) (Payload step) f (Substitutions step)))
  else if decide (Name step = "role") then
    Some (amazon.CallCreateRole (short +:+ "-role-" +:+ GUID f)
            (substiteInPayload (rangeOrder (calls w)) (Payload step) f (Substitutions step)))
  else if decide (Name step = "bind_role") then
    Some (amazon.CallBindPolicyToRole
            (value (entry (StepsCompleted f) "policy") "output")
            (value (entry (StepsCompleted f) "role") "output"))
  else None.

(** The four ways one turn of the loop of [ForgeApplication] can go: the
    step has no case; its call fails; its call returns neither an error
    nor the identifier; its call succeeds and the step is recorded. *)
Inductive Turn (rangeOrder : list amazon.Call -> gmap string string -> list (string * string))
    (a : AmazonProvider) (step : Step) (w : World)
    : Outcome (option error) * World -> Prop :=
| Turn_skip :
    stepCall rangeOrder step w = None ->
    Turn rangeOrder a step w (Val None, w)
| Turn_fail c e :
    stepCall rangeOrder step w = Some c ->
    amazon.failure (Client a) (calls w) c = Some e ->
    Turn rangeOrder a step w (Val (Some e), called w c)
| Turn_panic c :
    stepCall rangeOrder step w = Some c ->
    amazon.failure (Client a) (calls w) c = None ->
    ~ succeeded (Client a) (calls w) c ->
    Turn rangeOrder a step w (Panic, called w c)
| Turn_ok c data :
    stepCall rangeOrder step w = Some c ->
    succeeded (Client a) (calls w) c ->
    Turn rangeOrder a step w
      (Val None, {| ledger := MarkCompleted (ledger w) (Name step) data;
                    calls := calls w ++ [c] |}).

(** [f'] differs from [f] in [StepsCompleted] at most. *)
Definition sameButSteps (f f' : Ledger) : Prop :=
  Request f' = Request f /\ GUID f' = GUID f /\
  superkey.Client f' = superkey.Client f /\
  resultUsername f' = resultUsername f /\
  resultPassword f' = resultPassword f /\
  resultExtra f' = resultExtra f.

(** The resource name a creation call carries. *)
Definition createdName (c : amazon.Call) : option string :=
  match c with
  | amazon.CallCreateS3Bucket n
  | amazon.CallCreatePolicy n _
  | amazon.CallCreateRole n _ => Some n
  | _ => None
  end.

(** The naming rule read with the name of the step as the infix: each
    creating step of a run passes [<shortName>-<step name>-<guid>] to its
    creation call. *)
Definition namedByStepName
    (rangeOrder : list amazon.Call -> gmap string string -> list (string * string))
    (a : AmazonProvider) (bytes : list byte) (request : CreateRequest) (w : World) : Prop :=
  forall pre step post wk c,
    SuperKeySteps request = pre ++ step :: post ->
    forgeSteps rangeOrder a pre (started a bytes request w) = (Val None, wk) ->
    Name step ∈ ["s3"; "policy"; "role"] ->
    stepCall rangeOrder step wk = Some c ->
    createdName c =
      Some (getShortName (ApplicationType request) +:+ "-" +:+ Name step +:+ "-"
            +:+ generateGUID bytes).

(** The infix of the resource name for each creating step. *)
Definition resourceLabel (stepName : string) : string :=
  if decide (stepName = "s3") then "bucket" else stepName.

(** The step kind a cleanup call belongs to. *)
Definition cleanupKind (c : amazon.Call) : option string :=
  match c with
  | amazon.CallUnBindPolicyToRole _ _ => Some "bind_role"
  | amazon.CallDestroyPolicy _ => Some "policy"
  | amazon.CallDestroyRole _ => Some "role"
  | amazon.CallDestroyS3Bucket _ => Some "s3"
  | _ => None
  end.

(** The cleanup calls a ledger asks for, in the order of the four blocks. *)
Definition teardownCalls (f : Ledger) : list amazon.Call :=
  let steps := StepsCompleted f in
  (if decide (is_Some (steps !! "bind_role"))
   then [amazon.CallUnBindPolicyToRole (value (entry steps "policy") "output")
                                       (value (entry steps "role") "output")]
   else []) ++
  (if decide (is_Some (steps !! "policy"))
   then [amazon.CallDestroyPolicy (value (entry steps "policy") "output")] else []) ++
  (if decide (is_Some (steps !! "role"))
   then [amazon.CallDestroyRole (value (entry steps "role") "output")] else []) ++
  (if decide (is_Some (steps !! "s3"))
   then [amazon.CallDestroyS3Bucket (value (entry steps "s3") "output")] else []).

(** The errors the client answers to the calls [cs] made one after the
    other from history [h]: one for each call that fails, in call order. *)
Fixpoint failures (cl : amazon.Client) (h : list amazon.Call) (cs : list amazon.Call)
    : list error :=
  match cs with
  | [] => []
  | c :: rest =>
      match amazon.failure cl h c with
      | Some e => e :: failures cl (h ++ [c]) rest
      | None => failures cl (h ++ [c]) rest
      end
  end.

(** The UTF-8 sequences of a string, by [GoString.RuneWidth]; [left]
    counts the bytes the first of them still has to take ([0]: it starts
    here). *)
Fixpoint runesFrom (left : nat) (s : string) : list string :=
  match s with
  | "" => []
  | String c t =>
      match (match left with 0 => GoString.RuneWidth s | _ => left end) with
      | S (S k) =>
          match runesFrom (S k) t with
          | rune :: rest => String c rune :: rest
          | [] => [String c ""]
          end
      | _ => String c "" :: runesFrom 0 t
      end
  end.

(** [ReplacedAll old new s r]: [r] is [s] with every instance of the token
    [old] replaced by [new].  For a non-empty token the string is read
    from the left: where the token stands it is replaced and reading goes
    on behind it, elsewhere the byte is kept.  The empty token stands
    before the first byte and behind each UTF-8 sequence. *)
Inductive ReplacedAll (old new : string) : string -> string -> Prop :=
| ReplacedAll_end :
    old <> "" -> ReplacedAll old new "" ""
| ReplacedAll_keep c s r :
    old <> "" -> GoString.HasPrefix (String c s) old = false ->
    ReplacedAll old new s r ->
    ReplacedAll old new (String c s) (String c r)
| ReplacedAll_token s r :
    old <> "" ->
    ReplacedAll old new s r ->
    ReplacedAll old new (old +:+ s) (new +:+ r)
| ReplacedAll_empty s :
    old = "" ->
    ReplacedAll old new s
      (new +:+ foldr (fun rune acc => rune +:+ new +:+ acc) "" (runesFrom 0 s)).


(** The reading of "no entry for the failed step or any later step" by
    name: after a run of [ForgeApplication] that fails at a step, the
    ledger has no entry under the name of that step or of a step after
    it. *)
Definition failedStepHasNoEntry
    (rangeOrder : list amazon.Call -> gmap string string -> list (string * string))
    (a : AmazonProvider) (bytes : list byte) (request : CreateRequest) (w : World) : Prop :=
  forall pre step post wk c err f w',
    SuperKeySteps request = pre ++ step :: post ->
    forgeSteps rangeOrder a pre (started a bytes request w) = (Val None, wk) ->
    stepCall rangeOrder step wk = Some c ->
    amazon.failure (Client a) (calls wk) c = Some err ->
    ForgeApplication rangeOrder a bytes request w = (Val (f, Some err), w') ->
    forall later, later ∈ step :: post -> StepsCompleted f !! Name later = None.


(** ** Further notions *)

(** Every byte of [s] satisfies [p]. *)
Fixpoint allBytes (p : ascii -> bool) (s : string) : bool :=
  match s with
  | "" => true
  | String c t => p c && allBytes p t
  end.

Definition isHexDigit (c : ascii) : bool :=
  GoString.ContainsByte "0123456789abcdef" c.

(** The value of a hexadecimal digit ([0] for any other byte). *)
Definition hexValue (c : ascii) : N :=
  let n := N_of_ascii c in
  if ((48 <=? n) && (n <=? 57))%N then (n - 48)%N
  else if ((97 <=? n) && (n <=? 102))%N then (n - 87)%N
  else 0%N.

(** [strings.Contains(s, old)]: [old] stands somewhere in [s]. *)
Fixpoint Contains (s old : string) : bool :=
  GoString.HasPrefix s old ||
  match s with
  | "" => false
  | String _ t => Contains t old
  end.

(** The step kind a creation or bind call belongs to. *)
Definition createKind (c : amazon.Call) : option string :=
  match c with
  | amazon.CallCreateS3Bucket _ => Some "s3"
  | amazon.CallCreatePolicy _ _ => Some "policy"
  | amazon.CallCreateRole _ _ => Some "role"
  | amazon.CallBindPolicyToRole _ _ => Some "bind_role"
  | _ => None
  end.

(** The outputs a step records when its call [c], made after the calls
    [h], has succeeded. *)
Definition recorded (cl : amazon.Client) (h : list amazon.Call) (c : amazon.Call)
    : gmap string string :=
  match c with
  | amazon.CallCreateS3Bucket n => {[ "output" := n ]}
  | amazon.CallCreatePolicy _ _ =>
      {[ "output" := default "" (amazon.pointer cl h c) ]}
  | amazon.CallCreateRole n _ =>
      <[ "output" := n ]> {[ "arn" := default "" (amazon.pointer cl h c) ]}
  | _ => ∅
  end.

(** The cleanup call [c] undoes something the calls [cs], made after the
    calls [h0], have done: the bucket or role of that name was created,
    the policy ARN was returned by a creation call, a bind call was
    made. *)
Definition undoes (cl : amazon.Client) (h0 cs : list amazon.Call) (c : amazon.Call) : Prop :=
  match c with
  | amazon.CallDestroyS3Bucket n => amazon.CallCreateS3Bucket n ∈ cs
  | amazon.CallDestroyRole r => exists payload, amazon.CallCreateRole r payload ∈ cs
  | amazon.CallDestroyPolicy arn =>
      exists h n payload rest,
        cs = h ++ amazon.CallCreatePolicy n payload :: rest /\
        fst (amazon.CreatePolicy cl (h0 ++ h) n payload) = Some arn
  | amazon.CallUnBindPolicyToRole _ _ =>
      exists p r, amazon.CallBindPolicyToRole p r ∈ cs
  | _ => False
  end.

(** The ledger [f] holds nothing but what the calls [cs] have created. *)
Definition holdsCreated (cl : amazon.Client) (h0 cs : list amazon.Call) (f : Ledger) : Prop :=
  forall c, c ∈ teardownCalls f -> undoes cl h0 cs c.

(** [succeeded] as a test. *)
Definition answeredOk (cl : amazon.Client) (h : list amazon.Call) (c : amazon.Call) : bool :=
  match amazon.failure cl h c with
  | Some _ => false
  | None =>
      match c with
      | amazon.CallCreatePolicy _ _ | amazon.CallCreateRole _ _ =>
          match amazon.pointer cl h c with Some _ => true | None => false end
      | _ => true
      end
  end.

(** Those of the calls [cs], made one after the other from history [h],
    that succeeded. *)
Fixpoint successes (cl : amazon.Client) (h : list amazon.Call) (cs : list amazon.Call)
    : list amazon.Call :=
  match cs with
  | [] => []
  | c :: rest =>
      if answeredOk cl h c then c :: successes cl (h ++ [c]) rest
      else successes cl (h ++ [c]) rest
  end.

(** [TearDown] on ledger [f] undoes the creation or bind call [c]: it
    destroys the bucket or role of that name, destroys a policy, or
    unbinds. *)
Definition undoneBy (f : Ledger) (c : amazon.Call) : Prop :=
  match c with
  | amazon.CallCreateS3Bucket n => amazon.CallDestroyS3Bucket n ∈ teardownCalls f
  | amazon.CallCreateRole n _ => amazon.CallDestroyRole n ∈ teardownCalls f
  | amazon.CallCreatePolicy _ _ => exists arn, amazon.CallDestroyPolicy arn ∈ teardownCalls f
  | amazon.CallBindPolicyToRole _ _ =>
      exists p r, amazon.CallUnBindPolicyToRole p r ∈ teardownCalls f
  | _ => True
  end.

(** What the loop of [ForgeApplication] keeps true of the world, for a
    run that started after the calls [h0] with request [request] and GUID
    [g]: the names of buckets and roles are those of the request and the
    GUID, each successful call has left an entry of its kind, and the
    entries of [s3] and [role] hold these names. *)
Definition keepsTrack (cl : amazon.Client) (h0 : list amazon.Call) (request : CreateRequest)
    (g : string) (w : World) : Prop :=
  Request (ledger w) = request /\ GUID (ledger w) = g /\
  exists cs, calls w = h0 ++ cs /\
    (forall n, amazon.CallCreateS3Bucket n ∈ cs ->
       n = getShortName (ApplicationType request) +:+ "-bucket-" +:+ g) /\
    (forall n p, amazon.CallCreateRole n p ∈ cs ->
       n = getShortName (ApplicationType request) +:+ "-role-" +:+ g) /\
    (forall c, c ∈ successes cl h0 cs ->
       exists k, createKind c = Some k /\ is_Some (StepsCompleted (ledger w) !! k)) /\
    (is_Some (StepsCompleted (ledger w) !! "s3") ->
     value (entry (StepsCompleted (ledger w)) "s3") "output"
     = getShortName (ApplicationType request) +:+ "-bucket-" +:+ g) /\
    (is_Some (StepsCompleted (ledger w) !! "role") ->
     value (entry (StepsCompleted (ledger w)) "role") "output"
     = getShortName (ApplicationType request) +:+ "-role-" +:+ g).

(** The step kinds in the order in which [TearDown] takes them. *)
Definition teardownOrder : list string := ["bind_role"; "policy"; "role"; "s3"].

(** ** Sample clients, requests and ledgers *)

Definition arnOf (kind name : string) : string :=
  "arn:aws:iam::123456789012:" +:+ kind +:+ "/" +:+ name.

(** A client all of whose operations succeed. *)
Definition okClient : amazon.Client :=
  {| amazon.CreateS3Bucket _ _ := None;
     amazon.CreatePolicy _ name _ := (Some (arnOf "policy" name), None);
     amazon.CreateRole _ name _ := (Some (arnOf "role" name), None);
     amazon.BindPolicyToRole _ _ _ := None;
     amazon.UnBindPolicyToRole _ _ _ := None;
     amazon.DestroyPolicy _ _ := None;
     amazon.DestroyRole _ _ := None;
     amazon.DestroyS3Bucket _ _ := None |}.

(** A client that cannot create roles. *)
Definition noRoleClient : amazon.Client :=
  {| amazon.CreateS3Bucket _ _ := None;
     amazon.CreatePolicy _ name _ := (Some (arnOf "policy" name), None);
     amazon.CreateRole _ _ _ := (None, Some "AccessDenied");
     amazon.BindPolicyToRole _ _ _ := None;
     amazon.UnBindPolicyToRole _ _ _ := None;
     amazon.DestroyPolicy _ _ := None;
     amazon.DestroyRole _ _ := None;
     amazon.DestroyS3Bucket _ _ := None |}.

(** A client that cannot destroy policies and buckets. *)
Definition leakyClient : amazon.Client :=
  {| amazon.CreateS3Bucket _ _ := None;
     amazon.CreatePolicy _ name _ := (Some (arnOf "policy" name), None);
     amazon.CreateRole _ name _ := (Some (arnOf "role" name), None);
     amazon.BindPolicyToRole _ _ _ := None;
     amazon.UnBindPolicyToRole _ _ _ := None;
     amazon.DestroyPolicy _ _ := Some "DeleteConflict";
     amazon.DestroyRole _ _ := None;
     amazon.DestroyS3Bucket _ _ := Some "BucketNotEmpty" |}.

Definition okProvider : AmazonProvider := {| Client := okClient |}.
Definition noRoleProvider : AmazonProvider := {| Client := noRoleClient |}.
Definition leakyProvider : AmazonProvider := {| Client := leakyClient |}.

(** The entries of a map in the order of [map_to_list], whatever the
    history. *)
Definition listOrder (h : list amazon.Call) (m : gmap string string)
    : list (string * string) :=
  map_to_list m.

Definition sampleBytes : list byte := [x01; x23; x45; x67; x89; xab; xcd; xef].

Definition stepS3 : Step :=
  {| Name := "s3"; Payload := ""; Substitutions := ∅ |}.
Definition stepPolicy : Step :=
  {| Name := "policy";
     Payload := "Resource=arn:aws:s3:::{{BUCKET}}";
     Substitutions := {[ "{{BUCKET}}" := "s3" ]} |}.
Definition stepRole : Step :=
  {| Name := "role";
     Payload := "Principal=arn:aws:iam::{{ACCOUNT}}:root";
     Substitutions := {[ "{{ACCOUNT}}" := "get_account" ]} |}.
Definition stepBind : Step :=
  {| Name := "bind_role"; Payload := ""; Substitutions := ∅ |}.
Definition stepOther : Step :=
  {| Name := "lambda"; Payload := ""; Substitutions := ∅ |}.

Definition requestOf (steps : list Step) : CreateRequest :=
  {| ApplicationType := "/insights/platform/cost-management";
     SuperKeySteps := steps;
     Extra := {[ "account" := "123456789012" ]} |}.

Definition sampleRequest : CreateRequest :=
  requestOf [stepS3; stepPolicy; stepOther; stepRole; stepBind].

(** A world in which nothing has happened: a ledger with no entry, no
    call made. *)
Definition blankWorld (p : AmazonProvider) : World :=
  {| ledger := newLedger p (requestOf []) ""; calls := [] |}.

(** A ledger in which the four steps are completed. *)
Definition fullLedger (p : AmazonProvider) : Ledger :=
  {| StepsCompleted :=
       <[ "s3" := {[ "output" := "my-bucket-abc123" ]} ]>
       (<[ "policy" := {[ "output" := "arn:policy" ]} ]>
       (<[ "role" := <[ "output" := "my-role" ]> {[ "arn" := "arn:role" ]} ]>
       (<[ "bind_role" := ∅ ]> ∅)));
     Request := sampleRequest;
     superkey.Client := p;
     GUID := "0123456789abcdef";
     resultUsername := Some "arn:role";
     resultPassword := None;
     resultExtra := None |}.

Definition fullWorld (p : AmazonProvider) : World :=
  {| ledger := fullLedger p; calls := [] |}.

(** The sample request against the client that cannot create roles: the
    steps before the [role] step, the world they leave, and the call the
    [role] step makes there. *)
Definition rolePrefix : list Step := [stepS3; stepPolicy; stepOther].

Definition beforeRole : World :=
  (forgeSteps listOrder noRoleProvider rolePrefix
     (started noRoleProvider sampleBytes sampleRequest (blankWorld noRoleProvider))).2.

Definition roleCall : amazon.Call :=
  amazon.CallCreateRole "redhat-cost-management-role-0123456789abcdef"
    "Principal=arn:aws:iam::123456789012:root".

(** A request that binds before anything is created. *)
Definition bindFirstRequest : CreateRequest := requestOf [stepBind; stepS3].

(** A client that creates a bucket once: a second creation fails. *)
Definition oneBucketClient : amazon.Client :=
  {| amazon.CreateS3Bucket h _ :=
       match h with [] => None | _ => Some "BucketAlreadyOwnedByYou" end;
     amazon.CreatePolicy _ name _ := (Some (arnOf "policy" name), None);
     amazon.CreateRole _ name _ := (Some (arnOf "role" name), None);
     amazon.BindPolicyToRole _ _ _ := None;
     amazon.UnBindPolicyToRole _ _ _ := None;
     amazon.DestroyPolicy _ _ := None;
     amazon.DestroyRole _ _ := None;
     amazon.DestroyS3Bucket _ _ := None |}.

Definition oneBucketProvider : AmazonProvider := {| Client := oneBucketClient |}.

(** A request with two bucket steps. *)
Definition twoBucketsRequest : CreateRequest := requestOf [stepS3; stepS3].

(** A client whose policy creation returns neither an error nor an
    ARN. *)
Definition silentClient : amazon.Client :=
  {| amazon.CreateS3Bucket _ _ := None;
     amazon.CreatePolicy _ _ _ := (None, None);
     amazon.CreateRole _ name _ := (Some (arnOf "role" name), None);
     amazon.BindPolicyToRole _ _ _ := None;
     amazon.UnBindPolicyToRole _ _ _ := None;
     amazon.DestroyPolicy _ _ := None;
     amazon.DestroyRole _ _ := None;
     amazon.DestroyS3Bucket _ _ := None |}.

Definition silentProvider : AmazonProvider := {| Client := silentClient |}.

(** A ledger in which only the bind step is completed. *)
Definition boundOnlyLedger (p : AmazonProvider) : Ledger :=
  MarkCompleted (newLedger p bindFirstRequest "0123456789abcdef") "bind_role" ∅.

(** * Properties *)

(** ** The library functions on examples *)

Example Base_of_path : GoPath.Base "/insights/platform/cost-management" = "cost-management".
Proof. reflexivity. Qed.
Example Base_of_slashes : GoPath.Base "//" = "/".
Proof. reflexivity. Qed.
Example Base_trailing : GoPath.Base "a/b/" = "b".
Proof. reflexivity. Qed.
Example Replace_twice : GoString.ReplaceAll "a{{X}}b{{X}}" "{{X}}" "12" = "a12b12".
Proof. reflexivity. Qed.
Example Replace_no_overlap : GoString.ReplaceAll "aaa" "aa" "b" = "ba".
Proof. reflexivity. Qed.
Example Replace_empty_old : GoString.ReplaceAll "ab" "" "-" = "-a-b-".
Proof. reflexivity. Qed.
Example Hex_of_bytes : GoHex.EncodeToString [x00; xff; x1a] = "00ff1a".
Proof. reflexivity. Qed.
Example getShortName_of_path : getShortName "/app/foo" = "redhat-foo".
Proof. reflexivity. Qed.
Example getShortName_of_root : getShortName "/" = "redhat-/".
Proof. reflexivity. Qed.
Example generateGUID_of_sample : generateGUID sampleBytes = "0123456789abcdef".
Proof. reflexivity. Qed.
Example Replace_empty_old_utf8 :
  GoString.ReplaceAll (String "195" (String "169" "a")) "" "-"
  = "-" +:+ String "195" (String "169" "-a-").
Proof. reflexivity. Qed.
Example runes_utf8 :
  runesFrom 0 (String "195" (String "169" "a")) = [String "195" (String "169" ""); "a"].
Proof. reflexivity. Qed.

(** ** Tactics *)

(** Unfolds the operations of [M] down to functions on worlds. *)
Ltac run_world :=
  unfold bind, load, history, remote, ret, deref, panic, markCompleted, store;
  cbn [ledger calls].

(** Case analysis on the answers of the cleanup operations in the goal. *)
Ltac case_answer :=
  match goal with
  | |- context [amazon.UnBindPolicyToRole ?c ?h ?x ?y] =>
      destruct (amazon.UnBindPolicyToRole c h x y)
  | |- context [amazon.DestroyPolicy ?c ?h ?x] =>
      destruct (amazon.DestroyPolicy c h x)
  | |- context [amazon.DestroyRole ?c ?h ?x] =>
      destruct (amazon.DestroyRole c h x)
  | |- context [amazon.DestroyS3Bucket ?c ?h ?x] =>
      destruct (amazon.DestroyS3Bucket c h x)
  end.

(** ** Reading the ledger *)

Lemma value_entry_absent (m : gmap string (gmap string string)) (k1 k2 : string) :
  m !! k1 = None -> value (entry m k1) k2 = "".
Proof. intros Hm. unfold entry, value. rewrite Hm. cbn. by rewrite lookup_empty. Qed.

(** ** Teardown *)

Section TearDownFacts.

Variable a : AmazonProvider.

Lemma failures_app cl h cs1 cs2 :
  failures cl h (cs1 ++ cs2) = failures cl h cs1 ++ failures cl (h ++ cs1) cs2.
Proof.
  revert h. induction cs1 as [|c cs1 IH]; intros h; simpl.
  - by rewrite app_nil_r.
  - rewrite IH, <- app_assoc. simpl. by destruct (amazon.failure cl h c).
Qed.

(** What one run of [TearDown] does: it returns, the ledger stays, the
    calls are those the ledger asks for, and the errors are those of the
    calls that failed. *)
Lemma TearDown_run w :
  TearDown a w =
    (Val (failures (Client a) (calls w) (teardownCalls (ledger w))),
     {| ledger := ledger w; calls := calls w ++ teardownCalls (ledger w) |}).
Proof.
  destruct w as [f h].
  unfold TearDown, teardownCalls. run_world.
  repeat (case_decide; cbn [ledger calls]);
    repeat (rewrite <- ?app_assoc; cbn [failures amazon.failure app]; case_answer);
    rewrite <- ?app_assoc, ?app_nil_r; reflexivity.
Qed.

End TearDownFacts.

Lemma teardownCalls_kind (f : Ledger) (c : amazon.Call) :
  c ∈ teardownCalls f ->
  exists kind, cleanupKind c = Some kind /\ is_Some (StepsCompleted f !! kind).
Proof.
  unfold teardownCalls. rewrite !elem_of_app.
  intros [H | [H | [H | H]]]; case_decide; try (by apply elem_of_nil in H);
    apply list_elem_of_singleton in H; subst c; simpl; eauto.
Qed.

Lemma teardownCalls_present (f : Ledger) (kind : string) :
  kind ∈ ["bind_role"; "policy"; "role"; "s3"] ->
  is_Some (StepsCompleted f !! kind) ->
  exists c, c ∈ teardownCalls f /\ cleanupKind c = Some kind.
Proof.
  intros Hk Hsome.
  repeat (apply elem_of_cons in Hk as [-> | Hk]); [| | | | by apply elem_of_nil in Hk].
  - exists (amazon.CallUnBindPolicyToRole
              (value (entry (StepsCompleted f) "policy") "output")
              (value (entry (StepsCompleted f) "role") "output")).
    split; [|reflexivity]. unfold teardownCalls.
    rewrite (decide_True (P := is_Some (_ !! "bind_role"))) by done.
    rewrite !elem_of_app. left. by apply list_elem_of_singleton.
  - exists (amazon.CallDestroyPolicy (value (entry (StepsCompleted f) "policy") "output")).
    split; [|reflexivity]. unfold teardownCalls.
    rewrite (decide_True (P := is_Some (_ !! "policy"))) by done.
    rewrite !elem_of_app. right; left. by apply list_elem_of_singleton.
  - exists (amazon.CallDestroyRole (value (entry (StepsCompleted f) "role") "output")).
    split; [|reflexivity]. unfold teardownCalls.
    rewrite (decide_True (P := is_Some (_ !! "role"))) by done.
    rewrite !elem_of_app. right; right; left. by apply list_elem_of_singleton.
  - exists (amazon.CallDestroyS3Bucket (value (entry (StepsCompleted f) "s3") "output")).
    split; [|reflexivity]. unfold teardownCalls.
    rewrite (decide_True (P := is_Some (_ !! "s3"))) by done.
    rewrite !elem_of_app. right; right; right. by apply list_elem_of_singleton.
Qed.

Lemma teardownCalls_all (f : Ledger) :
  is_Some (StepsCompleted f !! "s3") ->
  is_Some (StepsCompleted f !! "policy") ->
  is_Some (StepsCompleted f !! "role") ->
  is_Some (StepsCompleted f !! "bind_role") ->
  teardownCalls f =
    [amazon.CallUnBindPolicyToRole (value (entry (StepsCompleted f) "policy") "output")
                                   (value (entry (StepsCompleted f) "role") "output");
     amazon.CallDestroyPolicy (value (entry (StepsCompleted f) "policy") "output");
     amazon.CallDestroyRole (value (entry (StepsCompleted f) "role") "output");
     amazon.CallDestroyS3Bucket (value (entry (StepsCompleted f) "s3") "output")].
Proof.
  intros Hs Hp Hr Hb. unfold teardownCalls.
  rewrite !decide_True by done. reflexivity.
Qed.

Lemma teardownCalls_empty (f : Ledger) :
  StepsCompleted f = ∅ -> teardownCalls f = [].
Proof.
  intros He. unfold teardownCalls. rewrite He.
  rewrite !decide_False; [reflexivity | | | |];
    rewrite lookup_empty; by intros [x Hx].
Qed.

(** C2.  For every ledger, each call [TearDown] makes belongs to a step kind
    whose entry is present in [StepsCompleted]; and for a ledger in which
    [s3], [policy], [role] and [bind_role] are all completed the calls are,
    in this order: unbind the policy from the role, destroy the policy,
    destroy the role, destroy the S3 bucket. *)
Theorem C2_teardown_reverse_order (a : AmazonProvider) (w : World) :
  (exists cs,
     calls (TearDown a w).2 = calls w ++ cs /\
     forall c, c ∈ cs ->
       exists kind, cleanupKind c = Some kind /\
                    is_Some (StepsCompleted (ledger w) !! kind))
  /\
  (is_Some (StepsCompleted (ledger w) !! "s3") ->
   is_Some (StepsCompleted (ledger w) !! "policy") ->
   is_Some (StepsCompleted (ledger w) !! "role") ->
   is_Some (StepsCompleted (ledger w) !! "bind_role") ->
   exists policyArn roleName bucket,
     policyArn = value (entry (StepsCompleted (ledger w)) "policy") "output" /\
     roleName = value (entry (StepsCompleted (ledger w)) "role") "output" /\
     bucket = value (entry (StepsCompleted (ledger w)) "s3") "output" /\
     calls (TearDown a w).2 =
       calls w ++ [amazon.CallUnBindPolicyToRole policyArn roleName;
                   amazon.CallDestroyPolicy policyArn;
                   amazon.CallDestroyRole roleName;
                   amazon.CallDestroyS3Bucket bucket]).
Proof.
  rewrite TearDown_run. cbn [snd calls]. split.
  - exists (teardownCalls (ledger w)). split; [reflexivity|].
    intros c Hc. by apply teardownCalls_kind.
  - intros Hs Hp Hr Hb. do 3 eexists. repeat (split; [reflexivity|]).
    by rewrite teardownCalls_all.
Qed.

(** C3.  For every ledger and every client, [TearDown] returns (it never
    panics); it makes the call of every step kind whose entry is present,
    whatever the other calls answer; and the list it returns holds the
    error of each call that failed, one for each, in call order.  In
    particular, when the unbind call (if any) succeeds, destroy-policy
    and destroy-bucket fail and destroy-role succeeds, the role and the
    bucket are still attempted and exactly the two errors are returned. *)
Theorem C3_teardown_collects_errors (a : AmazonProvider) (w : World) :
  exists errs w',
    TearDown a w = (Val errs, w') /\
    calls w' = calls w ++ teardownCalls (ledger w) /\
    (forall kind, kind ∈ ["bind_role"; "policy"; "role"; "s3"] ->
       is_Some (StepsCompleted (ledger w) !! kind) ->
       exists c, c ∈ teardownCalls (ledger w) /\ cleanupKind c = Some kind) /\
    errs = failures (Client a) (calls w) (teardownCalls (ledger w)) /\
    (forall unbind p r b e1 e2,
       teardownCalls (ledger w) =
         unbind ++ [amazon.CallDestroyPolicy p; amazon.CallDestroyRole r;
                    amazon.CallDestroyS3Bucket b] ->
       failures (Client a) (calls w) unbind = [] ->
       amazon.DestroyPolicy (Client a) (calls w ++ unbind) p = Some e1 ->
       amazon.DestroyRole (Client a)
         (calls w ++ unbind ++ [amazon.CallDestroyPolicy p]) r = None ->
       amazon.DestroyS3Bucket (Client a)
         (calls w ++ unbind ++ [amazon.CallDestroyPolicy p; amazon.CallDestroyRole r]) b
         = Some e2 ->
       errs = [e1; e2] /\ length errs = 2 /\
       amazon.CallDestroyRole r ∈ teardownCalls (ledger w) /\
       amazon.CallDestroyS3Bucket b ∈ teardownCalls (ledger w)).
Proof.
  do 2 eexists. split; [apply TearDown_run|]. cbn [calls].
  split; [reflexivity|]. split; [intros; by apply teardownCalls_present|].
  split; [reflexivity|].
  intros unbind p r b e1 e2 Hcs Hun Hp Hr Hb. rewrite Hcs.
  rewrite failures_app, Hun. cbn [failures amazon.failure app].
  rewrite <- !app_assoc. cbn [app]. rewrite Hp, Hr, Hb.
  repeat split; try reflexivity; rewrite !elem_of_app; right; set_solver.
Qed.

(** C8.  For every ledger whose [StepsCompleted] is empty, [TearDown] makes
    no call and returns the empty list of errors. *)
Theorem C8_teardown_of_empty_ledger (a : AmazonProvider) (w : World) :
  StepsCompleted (ledger w) = ∅ ->
  TearDown a w = (Val [], w) /\ calls (TearDown a w).2 = calls w.
Proof.
  intros He. rewrite TearDown_run, (teardownCalls_empty _ He).
  cbn [failures snd calls]. rewrite app_nil_r. by destruct w.
Qed.

(** C9.  [TearDown] leaves the ledger as it was, whatever the client
    answers: request, GUID, [StepsCompleted] and the result fields are
    those of before, no entry is removed; so a second [TearDown] on the
    same ledger makes the same calls as the first. *)
Theorem C9_teardown_keeps_ledger (a a' : AmazonProvider) (w : World) :
  ledger (TearDown a w).2 = ledger w /\
  StepsCompleted (ledger (TearDown a w).2) = StepsCompleted (ledger w) /\
  exists cs,
    calls (TearDown a w).2 = calls w ++ cs /\
    calls (TearDown a' (TearDown a w).2).2 = calls (TearDown a w).2 ++ cs.
Proof.
  rewrite !TearDown_run. cbn [snd ledger calls]. repeat split.
  exists (teardownCalls (ledger w)). split; reflexivity.
Qed.

Lemma C2_teardown_reverse_order_witness :
  (is_Some (StepsCompleted (ledger (fullWorld okProvider)) !! "s3") /\
   is_Some (StepsCompleted (ledger (fullWorld okProvider)) !! "policy") /\
   is_Some (StepsCompleted (ledger (fullWorld okProvider)) !! "role") /\
   is_Some (StepsCompleted (ledger (fullWorld okProvider)) !! "bind_role")) /\
  calls (TearDown okProvider (fullWorld okProvider)).2 =
    [amazon.CallUnBindPolicyToRole "arn:policy" "my-role";
     amazon.CallDestroyPolicy "arn:policy";
     amazon.CallDestroyRole "my-role";
     amazon.CallDestroyS3Bucket "my-bucket-abc123"].
Proof.
  assert (Hs : is_Some (StepsCompleted (ledger (fullWorld okProvider)) !! "s3"))
    by (eexists; reflexivity).
  assert (Hp : is_Some (StepsCompleted (ledger (fullWorld okProvider)) !! "policy"))
    by (eexists; reflexivity).
  assert (Hr : is_Some (StepsCompleted (ledger (fullWorld okProvider)) !! "role"))
    by (eexists; reflexivity).
  assert (Hb : is_Some (StepsCompleted (ledger (fullWorld okProvider)) !! "bind_role"))
    by (eexists; reflexivity).
  split; [auto|].
  destruct (proj2 (C2_teardown_reverse_order okProvider (fullWorld okProvider))
              Hs Hp Hr Hb) as (p & r & b & -> & -> & -> & ->).
  reflexivity.
Defined.

Lemma C8_teardown_of_empty_ledger_witness :
  StepsCompleted (ledger (blankWorld okProvider)) = ∅ /\
  TearDown leakyProvider (blankWorld okProvider) = (Val [], blankWorld okProvider).
Proof.
  split; [reflexivity|].
  apply (C8_teardown_of_empty_ledger leakyProvider (blankWorld okProvider)).
  reflexivity.
Defined.

Lemma C3_teardown_collects_errors_witness :
  exists w',
    TearDown leakyProvider (fullWorld leakyProvider)
    = (Val ["DeleteConflict"; "BucketNotEmpty"], w') /\
    calls w' = [amazon.CallUnBindPolicyToRole "arn:policy" "my-role";
                amazon.CallDestroyPolicy "arn:policy";
                amazon.CallDestroyRole "my-role";
                amazon.CallDestroyS3Bucket "my-bucket-abc123"].
Proof.
  destruct (C3_teardown_collects_errors leakyProvider (fullWorld leakyProvider))
    as (errs & w' & Hrun & Hcalls & _ & _ & Hexample).
  destruct (Hexample [amazon.CallUnBindPolicyToRole "arn:policy" "my-role"]
              "arn:policy" "my-role" "my-bucket-abc123"
              "DeleteConflict" "BucketNotEmpty")
    as (Herrs & _); try reflexivity.
  exists w'. rewrite Hrun, Herrs, Hcalls. split; reflexivity.
Defined.

(** ** Forging *)

Section ForgeFacts.

Variable rangeOrder : list amazon.Call -> gmap string string -> list (string * string).
Variable a : AmazonProvider.

Lemma stepCall_recognized step w :
  is_Some (stepCall rangeOrder step w) <-> recognized (Name step) = true.
Proof.
  unfold stepCall, recognized. rewrite bool_decide_eq_true.
  split.
  - intros Hs. rewrite !elem_of_cons. repeat case_decide; auto 6.
    by apply is_Some_None in Hs.
  - intros Hin. repeat case_decide; eauto.
    repeat (apply elem_of_cons in Hin as [? | Hin]; [done|]).
    by apply elem_of_nil in Hin.
Qed.

Lemma forgeStep_skip step w :
  stepCall rangeOrder step w = None -> forgeStep rangeOrder a step w = (Val None, w).
Proof.
  unfold stepCall, forgeStep. by repeat case_decide.
Qed.

Lemma forgeStep_fail step w c e :
  stepCall rangeOrder step w = Some c ->
  amazon.failure (Client a) (calls w) c = Some e ->
  forgeStep rangeOrder a step w = (Val (Some e), called w c).
Proof.
  unfold stepCall, forgeStep, called.
  repeat case_decide; intros [= <-]; cbn [amazon.failure]; intros He;
    run_world; rewrite He; reflexivity.
Qed.

Lemma forgeStep_panic step w c :
  stepCall rangeOrder step w = Some c ->
  amazon.failure (Client a) (calls w) c = None ->
  ~ succeeded (Client a) (calls w) c ->
  forgeStep rangeOrder a step w = (Panic, called w c).
Proof.
  unfold stepCall, forgeStep, called, succeeded.
  repeat case_decide; intros [= <-]; cbn [amazon.failure amazon.pointer];
    intros He Hn; try (by destruct Hn);
    run_world; rewrite He;
    match goal with
    | |- context [fst ?r] => destruct (fst r) eqn:Hp
    end; try reflexivity; destruct Hn; eauto.
Qed.

Lemma forgeStep_ok step w c :
  stepCall rangeOrder step w = Some c ->
  succeeded (Client a) (calls w) c ->
  exists data,
    forgeStep rangeOrder a step w =
      (Val None, {| ledger := MarkCompleted (ledger w) (Name step) data;
                    calls := calls w ++ [c] |}).
Proof.
  unfold stepCall, forgeStep, succeeded.
  repeat case_decide; intros [= <-]; cbn [amazon.failure amazon.pointer];
    intros [He Hp];
    run_world; rewrite He;
    try match type of Hp with is_Some _ => destruct Hp as [v ->] end;
    match goal with Hn : Name step = _ |- _ => rewrite Hn end;
    eexists; reflexivity.
Qed.

Lemma forgeStep_turn step w : Turn rangeOrder a step w (forgeStep rangeOrder a step w).
Proof.
  destruct (stepCall rangeOrder step w) as [c|] eqn:Hc.
  - destruct (amazon.failure (Client a) (calls w) c) as [e|] eqn:He.
    + rewrite (forgeStep_fail _ _ _ _ Hc He). by eapply Turn_fail.
    + assert (Hdec : Decision (succeeded (Client a) (calls w) c)).
      { unfold succeeded. destruct c; apply _. }
      destruct Hdec as [Hs | Hn].
      * destruct (forgeStep_ok _ _ _ Hc Hs) as [data ->]. by eapply Turn_ok.
      * rewrite (forgeStep_panic _ _ _ Hc He Hn). by eapply Turn_panic.
  - rewrite (forgeStep_skip _ _ Hc). by apply Turn_skip.
Qed.

Lemma forgeSteps_cons step rest w :
  forgeSteps rangeOrder a (step :: rest) w =
    match forgeStep rangeOrder a step w with
    | (Val None, w') => forgeSteps rangeOrder a rest w'
    | (Val (Some e), w') => (Val (Some e), w')
    | (Panic, w') => (Panic, w')
    end.
Proof.
  cbn [forgeSteps]. unfold bind, ret.
  by destruct (forgeStep rangeOrder a step w) as [[[e|]|] w'].
Qed.

Lemma forgeSteps_app pre post w :
  forgeSteps rangeOrder a (pre ++ post) w =
    match forgeSteps rangeOrder a pre w with
    | (Val None, w') => forgeSteps rangeOrder a post w'
    | (Val (Some e), w') => (Val (Some e), w')
    | (Panic, w') => (Panic, w')
    end.
Proof.
  revert w. induction pre as [|step pre IH]; intros w; [reflexivity|].
  rewrite <- app_comm_cons, !forgeSteps_cons.
  destruct (forgeStep rangeOrder a step w) as [[[e|]|] w']; auto.
Qed.

Lemma sameButSteps_refl f : sameButSteps f f.
Proof. by repeat split. Qed.

Lemma sameButSteps_trans f1 f2 f3 :
  sameButSteps f1 f2 -> sameButSteps f2 f3 -> sameButSteps f1 f3.
Proof.
  unfold sameButSteps. intros (? & ? & ? & ? & ? & ?) (? & ? & ? & ? & ? & ?).
  repeat split; congruence.
Qed.

(** A turn adds at most its call to the history and changes no field of
    the ledger but [StepsCompleted]. *)
Lemma Turn_frame step w r :
  Turn rangeOrder a step w r ->
  sameButSteps (ledger w) (ledger r.2) /\ exists cs, calls r.2 = calls w ++ cs.
Proof.
  intros [Hc | c e Hc He | c Hc He Hn | c data Hc Hs]; cbn [snd called ledger calls];
    (split; [by repeat split|]).
  - exists []. by rewrite app_nil_r.
  - by exists [c].
  - by exists [c].
  - by exists [c].
Qed.

Lemma forgeSteps_frame steps w :
  sameButSteps (ledger w) (ledger (forgeSteps rangeOrder a steps w).2) /\
  exists cs, calls (forgeSteps rangeOrder a steps w).2 = calls w ++ cs.
Proof.
  revert w. induction steps as [|step rest IH]; intros w.
  - split; [apply sameButSteps_refl|]. exists []. by rewrite app_nil_r.
  - rewrite forgeSteps_cons.
    destruct (Turn_frame _ _ _ (forgeStep_turn step w)) as [Hf [cs Hcs]].
    destruct (forgeStep rangeOrder a step w) as [[[e|]|] w1]; cbn [snd] in *; eauto.
    destruct (IH w1) as [Hf' [cs' Hcs']]. split.
    + by eapply sameButSteps_trans.
    + exists (cs ++ cs'). by rewrite Hcs', Hcs, app_assoc.
Qed.

Lemma recordedNames_cons step rest :
  recordedNames (step :: rest) =
    if recognized (Name step) then {[ Name step ]} ∪ recordedNames rest
    else recordedNames rest.
Proof.
  unfold recordedNames. rewrite fmap_cons, filter_cons.
  destruct (recognized (Name step)) eqn:Hr.
  - by rewrite decide_True.
  - by rewrite decide_False.
Qed.

Lemma recordedNames_elem (name : string) steps :
  name ∈ recordedNames steps -> name ∈ (Name <$> steps).
Proof.
  unfold recordedNames. rewrite elem_of_list_to_set, list_elem_of_filter. tauto.
Qed.

(** When the loop runs through, the ledger has gained one entry for each
    recognized step name, and no other. *)
Lemma forgeSteps_dom steps w w' :
  forgeSteps rangeOrder a steps w = (Val None, w') ->
  dom (StepsCompleted (ledger w')) = dom (StepsCompleted (ledger w)) ∪ recordedNames steps.
Proof.
  revert w. induction steps as [|step rest IH]; intros w.
  - intros [= <-]. unfold recordedNames. cbn.
    by rewrite (right_id_L ∅ (∪)).
  - rewrite forgeSteps_cons, recordedNames_cons.
    pose proof (forgeStep_turn step w) as Ht.
    destruct (forgeStep rangeOrder a step w) as [o w1].
    inversion Ht as [Hc | c e Hc He | c Hc He Hn | c data Hc Hs]; subst; try done.
    + intros Hrest. rewrite (IH _ Hrest).
      destruct (recognized (Name step)) eqn:Hr; [|done].
      match type of Hc with
      | stepCall _ _ ?w0 = _ => apply (stepCall_recognized step w0) in Hr
      end.
      rewrite Hc in Hr. by apply is_Some_None in Hr.
    + intros Hrest. rewrite (IH _ Hrest). cbn [ledger MarkCompleted StepsCompleted].
      rewrite dom_insert_L.
      assert (Hr : recognized (Name step) = true)
        by (apply (stepCall_recognized step w); rewrite Hc; eauto).
      rewrite Hr, (assoc_L (∪)). f_equal. apply (comm_L (∪)).
Qed.

(** When every call of the loop succeeds, the loop runs through. *)
Lemma forgeSteps_succeed steps w :
  allSucceeded (Client a) w (forgeSteps rangeOrder a steps w).2 ->
  (forgeSteps rangeOrder a steps w).1 = Val None.
Proof.
  revert w. induction steps as [|step rest IH]; intros w; [reflexivity|].
  rewrite forgeSteps_cons.
  pose proof (forgeStep_turn step w) as Ht.
  destruct (forgeStep rangeOrder a step w) as [o w1].
  inversion Ht as [Hc | c e Hc He | c Hc He Hn | c data Hc Hs]; subst.
  - apply IH.
  - intros Hall. destruct (Hall [] c []) as [Hf _]; [reflexivity|].
    rewrite app_nil_r in Hf. congruence.
  - intros Hall. destruct Hn. rewrite <- (app_nil_r (calls w)).
    by apply (Hall [] c []).
  - intros Hall. apply IH. intros h c' rest' Heq. cbn [calls] in *.
    rewrite <- app_assoc. apply (Hall ([c] ++ h) c' rest').
    rewrite Heq, <- !app_assoc. reflexivity.
Qed.

(** [ForgeApplication] in terms of its loop. *)
Lemma ForgeApplication_run bytes request w :
  ForgeApplication rangeOrder a bytes request w =
    match forgeSteps rangeOrder a (SuperKeySteps request) (started a bytes request w) with
    | (Val (Some err), w') => (Val (ledger w', Some err), w')
    | (Val None, w') =>
        let f := CreatePayload (ledger w')
                   (Some (value (entry (StepsCompleted (ledger w')) "role") "arn")) None
                   (Some (GoPath.Base (ApplicationType (Request (ledger w'))))) in
        (Val (f, None), {| ledger := f; calls := calls w' |})
    | (Panic, w') => (Panic, w')
    end.
Proof.
  unfold ForgeApplication, bind, store, load, ret, started. cbn [calls].
  by destruct (forgeSteps rangeOrder a (SuperKeySteps request) _) as [[[e|]|] w'].
Qed.

End ForgeFacts.

Section ForgeClaims.

Variable rangeOrder : list amazon.Call -> gmap string string -> list (string * string).
Variable a : AmazonProvider.

(** When every call of a run of [ForgeApplication] succeeds, its loop
    runs through. *)
Lemma ForgeApplication_loop_through bytes request w :
  allSucceeded (Client a) w (ForgeApplication rangeOrder a bytes request w).2 ->
  exists w',
    forgeSteps rangeOrder a (SuperKeySteps request) (started a bytes request w)
    = (Val None, w').
Proof.
  rewrite ForgeApplication_run. intros Hall.
  pose proof (forgeSteps_succeed rangeOrder a (SuperKeySteps request)
                (started a bytes request w)) as Hs.
  destruct (forgeSteps rangeOrder a (SuperKeySteps request) _) as [o w'].
  cbn [fst snd] in Hs. rewrite Hs; [by exists w'|].
  by destruct o as [[e|]|].
Qed.

(** C1, amended.  Let step [k] of the request be the first whose remote
    call fails: the steps before it ran through and left world [wk], and
    the call [c] that step [k] makes there is answered with the error
    [err].  Then [ForgeApplication] returns the ledger as it was before
    step [k] together with [err], and [c] is the last call made: no later
    step is interpreted.  [StepsCompleted] holds exactly the names of the
    recognized steps before [k]; there is no entry under the name of step
    [k] or of a later step, unless a step before [k] bears that name. *)
Theorem C1_forge_stops_at_failed_step bytes request w pre step post wk c err :
  SuperKeySteps request = pre ++ step :: post ->
  forgeSteps rangeOrder a pre (started a bytes request w) = (Val None, wk) ->
  stepCall rangeOrder step wk = Some c ->
  amazon.failure (Client a) (calls wk) c = Some err ->
  ForgeApplication rangeOrder a bytes request w
  = (Val (ledger wk, Some err), called wk c) /\
  dom (StepsCompleted (ledger wk)) = recordedNames pre /\
  (forall later, later ∈ step :: post -> Name later ∉ (Name <$> pre) ->
     StepsCompleted (ledger wk) !! Name later = None).
Proof.
  intros Hsteps Hpre Hc He.
  assert (Hdom : dom (StepsCompleted (ledger wk)) = recordedNames pre).
  { rewrite (forgeSteps_dom _ _ _ _ _ Hpre). cbn [started ledger newLedger StepsCompleted].
    by rewrite dom_empty_L, (left_id_L ∅ (∪)). }
  split; [|split; [done|]].
  - rewrite ForgeApplication_run, Hsteps, forgeSteps_app, Hpre, forgeSteps_cons.
    by rewrite (forgeStep_fail _ _ _ _ _ _ Hc He).
  - intros later _ Hfresh. apply not_elem_of_dom. rewrite Hdom.
    intros Hin. by apply Hfresh, recordedNames_elem.
Qed.

(** C4.  When every remote call of a run of [ForgeApplication] succeeds,
    it returns a nil error and the ledger, whose [StepsCompleted] has an
    entry under each recognized step name ([s3], [policy], [role],
    [bind_role]) that occurs in the request and under no other name.  A
    step with an unrecognized name changes nothing: no call, no entry,
    no error. *)
Theorem C4_forge_records_recognized_steps bytes request w :
  (allSucceeded (Client a) w (ForgeApplication rangeOrder a bytes request w).2 ->
   exists f w',
     ForgeApplication rangeOrder a bytes request w = (Val (f, None), w') /\
     ledger w' = f /\
     dom (StepsCompleted f) = recordedNames (SuperKeySteps request)) /\
  (forall step w0,
     recognized (Name step) = false ->
     forgeStep rangeOrder a step w0 = (Val None, w0)).
Proof.
  split.
  - intros Hall. destruct (ForgeApplication_loop_through _ _ _ Hall) as [w' Hrun].
    rewrite ForgeApplication_run, Hrun. do 2 eexists. split; [reflexivity|].
    split; [reflexivity|]. cbn [CreatePayload StepsCompleted].
    rewrite (forgeSteps_dom _ _ _ _ _ Hrun). cbn [started ledger newLedger StepsCompleted].
    by rewrite dom_empty_L, (left_id_L ∅ (∪)).
  - intros step w0 Hr. apply forgeStep_skip.
    destruct (stepCall rangeOrder step w0) eqn:Hc; [|done].
    assert (Hs : is_Some (stepCall rangeOrder step w0)) by (rewrite Hc; eauto).
    apply stepCall_recognized in Hs. congruence.
Qed.

(** C6.  When every remote call of a run of [ForgeApplication] succeeds,
    the ledger it returns has as username the [arn] recorded for the
    [role] step, and no password. *)
Theorem C6_forge_sets_username_to_role_arn bytes request w :
  allSucceeded (Client a) w (ForgeApplication rangeOrder a bytes request w).2 ->
  exists f w',
    ForgeApplication rangeOrder a bytes request w = (Val (f, None), w') /\
    ledger w' = f /\
    resultUsername f = Some (value (entry (StepsCompleted f) "role") "arn") /\
    resultPassword f = None.
Proof.
  intros Hall. destruct (ForgeApplication_loop_through _ _ _ Hall) as [w' Hrun].
  rewrite ForgeApplication_run, Hrun. do 2 eexists. split; [reflexivity|].
  repeat split.
Qed.

End ForgeClaims.

Lemma okClient_succeeds (h : list amazon.Call) (c : amazon.Call) :
  succeeded okClient h c.
Proof. destruct c; split; cbn; eauto. Qed.

Lemma C1_forge_stops_at_failed_step_witness :
  ForgeApplication listOrder noRoleProvider sampleBytes sampleRequest
    (blankWorld noRoleProvider)
  = (Val (ledger beforeRole, Some "AccessDenied"), called beforeRole roleCall) /\
  dom (StepsCompleted (ledger beforeRole)) = recordedNames rolePrefix /\
  calls (called beforeRole roleCall)
  = [amazon.CallCreateS3Bucket "redhat-cost-management-bucket-0123456789abcdef";
     amazon.CallCreatePolicy "redhat-cost-management-policy-0123456789abcdef"
       "Resource=arn:aws:s3:::redhat-cost-management-bucket-0123456789abcdef";
     roleCall].
Proof.
  destruct (C1_forge_stops_at_failed_step listOrder noRoleProvider sampleBytes
              sampleRequest (blankWorld noRoleProvider) rolePrefix stepRole [stepBind]
              beforeRole roleCall "AccessDenied")
    as (Hrun & Hdom & _).
  - reflexivity.
  - vm_compute. reflexivity.
  - vm_compute. reflexivity.
  - reflexivity.
  - split; [exact Hrun|]. split; [exact Hdom|]. vm_compute. reflexivity.
Defined.

Lemma C1_entry_under_failed_step_name :
  ~ failedStepHasNoEntry listOrder oneBucketProvider sampleBytes twoBucketsRequest
      (blankWorld oneBucketProvider).
Proof.
  intros Hclaim.
  specialize (Hclaim [stepS3] stepS3 []
                (forgeSteps listOrder oneBucketProvider [stepS3]
                   (started oneBucketProvider sampleBytes twoBucketsRequest
                      (blankWorld oneBucketProvider))).2
                (amazon.CallCreateS3Bucket "redhat-cost-management-bucket-0123456789abcdef")
                "BucketAlreadyOwnedByYou"
                (ledger (ForgeApplication listOrder oneBucketProvider sampleBytes
                           twoBucketsRequest (blankWorld oneBucketProvider)).2)
                (ForgeApplication listOrder oneBucketProvider sampleBytes
                   twoBucketsRequest (blankWorld oneBucketProvider)).2).
  assert (Hin : stepS3 ∈ [stepS3]) by (apply elem_of_cons; by left).
  assert (Hentry : StepsCompleted
                     (ledger (ForgeApplication listOrder oneBucketProvider sampleBytes
                                twoBucketsRequest (blankWorld oneBucketProvider)).2)
                   !! Name stepS3 = None).
  { apply Hclaim; [reflexivity | vm_compute; reflexivity | vm_compute; reflexivity
                  | reflexivity | vm_compute; reflexivity | exact Hin]. }
  vm_compute in Hentry. discriminate Hentry.
Qed.

Lemma C4_forge_records_recognized_steps_witness :
  (allSucceeded (Client okProvider) (blankWorld okProvider)
     (ForgeApplication listOrder okProvider sampleBytes sampleRequest
        (blankWorld okProvider)).2 /\
   recognized (Name stepOther) = false) /\
  (exists f w',
     ForgeApplication listOrder okProvider sampleBytes sampleRequest (blankWorld okProvider)
     = (Val (f, None), w') /\
     dom (StepsCompleted f) = recordedNames [stepS3; stepPolicy; stepRole; stepBind]) /\
  forgeStep listOrder okProvider stepOther (blankWorld okProvider)
  = (Val None, blankWorld okProvider).
Proof.
  assert (Hall : allSucceeded (Client okProvider) (blankWorld okProvider)
                   (ForgeApplication listOrder okProvider sampleBytes sampleRequest
                      (blankWorld okProvider)).2)
    by (intros h c rest _; apply okClient_succeeds).
  assert (Hother : recognized (Name stepOther) = false) by reflexivity.
  destruct (C4_forge_records_recognized_steps listOrder okProvider sampleBytes
              sampleRequest (blankWorld okProvider)) as [Hforge Hskip].
  destruct (Hforge Hall) as (f & w' & Hrun & _ & Hdom).
  split; [by split|]. split; [|by apply Hskip].
  exists f, w'. split; [exact Hrun|]. rewrite Hdom. reflexivity.
Defined.

Lemma C6_forge_sets_username_to_role_arn_witness :
  allSucceeded (Client okProvider) (blankWorld okProvider)
    (ForgeApplication listOrder okProvider sampleBytes sampleRequest
       (blankWorld okProvider)).2 /\
  exists f w',
    ForgeApplication listOrder okProvider sampleBytes sampleRequest (blankWorld okProvider)
    = (Val (f, None), w') /\
    resultUsername f
    = Some "arn:aws:iam::123456789012:role/redhat-cost-management-role-0123456789abcdef" /\
    resultPassword f = None.
Proof.
  assert (Hall : allSucceeded (Client okProvider) (blankWorld okProvider)
                   (ForgeApplication listOrder okProvider sampleBytes sampleRequest
                      (blankWorld okProvider)).2)
    by (intros h c rest _; apply okClient_succeeds).
  split; [exact Hall|].
  destruct (C6_forge_sets_username_to_role_arn listOrder okProvider sampleBytes
              sampleRequest (blankWorld okProvider) Hall)
    as (f & w' & Hrun & Hf & Huser & Hpass).
  exists f, w'. split; [exact Hrun|]. split; [|exact Hpass].
  rewrite Huser, <- Hf.
  replace w' with (ForgeApplication listOrder okProvider sampleBytes sampleRequest
                     (blankWorld okProvider)).2 by (by rewrite Hrun).
  vm_compute. reflexivity.
Defined.

(** ** Names *)

Lemma LastIndexByte_None (s : string) (c : ascii) :
  GoString.LastIndexByte s c = None -> GoString.ContainsByte s c = false.
Proof.
  induction s as [|x t IH]; [done|]. cbn.
  destruct (GoString.LastIndexByte t c); [done|].
  destruct (Ascii.eqb x c); [done|]. auto.
Qed.

Lemma LastIndexByte_drop (s : string) (c : ascii) (i : nat) :
  GoString.LastIndexByte s c = Some i ->
  GoString.ContainsByte (GoString.drop (S i) s) c = false.
Proof.
  revert i. induction s as [|x t IH]; intros i; [done|]. cbn.
  destruct (GoString.LastIndexByte t c) as [j|] eqn:Hlast.
  - intros [= <-]. by apply IH.
  - destruct (Ascii.eqb x c); [|done]. intros [= <-].
    destruct t; by apply LastIndexByte_None.
Qed.

(** The last element of a path has no slash in it, unless it is the root. *)
Lemma Base_no_slash (p : string) :
  GoPath.Base p = "/" \/ GoString.ContainsByte (GoPath.Base p) "/" = false.
Proof.
  unfold GoPath.Base. case_decide; [by right|].
  destruct (GoString.LastIndexByte _ _) as [i|] eqn:Hlast.
  - case_decide; [by left|]. right. by apply LastIndexByte_drop.
  - case_decide; [by left|]. right. by apply LastIndexByte_None.
Qed.

Section NameClaims.

Variable rangeOrder : list amazon.Call -> gmap string string -> list (string * string).
Variable a : AmazonProvider.

Lemma forgeStep_calls step w c :
  stepCall rangeOrder step w = Some c ->
  calls (forgeStep rangeOrder a step w).2 = calls w ++ [c].
Proof.
  intros Hc. pose proof (forgeStep_turn rangeOrder a step w) as Ht.
  destruct (forgeStep rangeOrder a step w) as [o w1].
  inversion Ht; subst; cbn [snd calls called]; congruence.
Qed.

(** The ledger the loop works on is that of the request and of the GUID
    drawn at the start. *)
Lemma forgeSteps_identity bytes request w steps :
  Request (ledger (forgeSteps rangeOrder a steps (started a bytes request w)).2) = request /\
  GUID (ledger (forgeSteps rangeOrder a steps (started a bytes request w)).2)
  = generateGUID bytes.
Proof.
  destruct (forgeSteps_frame rangeOrder a steps (started a bytes request w))
    as [(Hr & Hg & _) _].
  by rewrite Hr, Hg.
Qed.

(** C7, amended.  Let step [k] of the request be reached (the steps
    before it ran through and left world [wk]).  If it is an [s3],
    [policy] or [role] step, the name it passes to its creation call is
    [<shortName(applicationType)>-<label>-<guid>], where the label is
    [bucket] for the [s3] step and the name of the step for [policy] and
    [role].  If it is a [bind_role] step, its call carries the recorded
    policy ARN and role name and no resource name.  [getShortName] is a
    function of the application type: [redhat-] followed by the last
    element of the path, which has no slash in it unless it is the root
    path. *)
Theorem C7_resource_names_use_labels bytes request w pre step post wk :
  SuperKeySteps request = pre ++ step :: post ->
  forgeSteps rangeOrder a pre (started a bytes request w) = (Val None, wk) ->
  (Name step ∈ ["s3"; "policy"; "role"] ->
   exists c,
     stepCall rangeOrder step wk = Some c /\
     calls (forgeStep rangeOrder a step wk).2 = calls wk ++ [c] /\
     createdName c =
       Some (getShortName (ApplicationType request) +:+ "-" +:+ resourceLabel (Name step)
             +:+ "-" +:+ generateGUID bytes)) /\
  (Name step = "bind_role" ->
   exists c,
     stepCall rangeOrder step wk = Some c /\
     calls (forgeStep rangeOrder a step wk).2 = calls wk ++ [c] /\
     c = amazon.CallBindPolicyToRole
           (value (entry (StepsCompleted (ledger wk)) "policy") "output")
           (value (entry (StepsCompleted (ledger wk)) "role") "output") /\
     createdName c = None) /\
  getShortName (ApplicationType request) = "redhat-" +:+ GoPath.Base (ApplicationType request) /\
  (GoPath.Base (ApplicationType request) = "/" \/
   GoString.ContainsByte (GoPath.Base (ApplicationType request)) "/" = false).
Proof.
  intros Hsteps Hpre.
  destruct (forgeSteps_identity bytes request w pre) as [Hreq Hguid].
  rewrite Hpre in Hreq, Hguid. cbn [snd] in Hreq, Hguid.
  split; [|split; [|split; [reflexivity | apply Base_no_slash]]].
  - intros Hin.
    assert (Hc : exists c, stepCall rangeOrder step wk = Some c /\
                   createdName c =
                     Some (getShortName (ApplicationType request) +:+ "-"
                           +:+ resourceLabel (Name step) +:+ "-" +:+ generateGUID bytes)).
    { unfold stepCall, resourceLabel. rewrite Hreq, Hguid.
      repeat (apply elem_of_cons in Hin as [Hn | Hin]);
        [| | | by apply elem_of_nil in Hin];
        rewrite Hn; repeat case_decide; try done; eexists; split; reflexivity. }
    destruct Hc as (c & Hc & Hname). exists c.
    split; [done|]. split; [by apply forgeStep_calls | done].
  - intros Hn. eexists. split; [|split; [|split; reflexivity]].
    + unfold stepCall. rewrite Hn. repeat case_decide; done.
    + apply forgeStep_calls. unfold stepCall. rewrite Hn.
      repeat case_decide; try done.
Qed.

(** C10.  Reading the outputs of a step that has no entry gives the
    empty string, and nothing panics.  A [bind_role] step that is
    reached makes the bind call with the empty string for the policy ARN
    when [policy] has no entry and for the role name when [role] has
    none; the step returns (with the client's answer), and the call is
    part of the run of [ForgeApplication].  A substitution from the
    output of the [s3] step, when that step has no entry, puts the empty
    string for the token. *)
Theorem C10_absent_outputs_read_as_empty bytes request w pre step post wk :
  (forall (m : gmap string (gmap string string)) (k1 k2 : string),
     m !! k1 = None -> value (entry m k1) k2 = "") /\
  (SuperKeySteps request = pre ++ step :: post ->
   forgeSteps rangeOrder a pre (started a bytes request w) = (Val None, wk) ->
   Name step = "bind_role" ->
   exists policyArn roleName r w1 cs,
     forgeStep rangeOrder a step wk = (Val r, w1) /\
     calls w1 = calls wk ++ [amazon.CallBindPolicyToRole policyArn roleName] /\
     calls (ForgeApplication rangeOrder a bytes request w).2 = calls w1 ++ cs /\
     (StepsCompleted (ledger wk) !! "policy" = None -> policyArn = "") /\
     (StepsCompleted (ledger wk) !! "role" = None -> roleName = "")) /\
  (forall order payload (f : Ledger) substitutions name,
     StepsCompleted f !! "s3" = None ->
     order substitutions = [(name, "s3")] ->
     substiteInPayload order payload f substitutions
     = GoString.ReplaceAll payload name "").
Proof.
  split; [|split].
  - apply value_entry_absent.
  - intros Hsteps Hpre Hn.
    assert (Hc : stepCall rangeOrder step wk =
                   Some (amazon.CallBindPolicyToRole
                           (value (entry (StepsCompleted (ledger wk)) "policy") "output")
                           (value (entry (StepsCompleted (ledger wk)) "role") "output"))).
    { unfold stepCall. rewrite Hn. by repeat case_decide. }
    pose proof (forgeStep_turn rangeOrder a step wk) as Ht.
    pose proof (forgeSteps_frame rangeOrder a post) as Hpost.
    assert (Hrun : calls (ForgeApplication rangeOrder a bytes request w).2 =
                     calls (forgeSteps rangeOrder a (step :: post) wk).2).
    { rewrite ForgeApplication_run, Hsteps, forgeSteps_app, Hpre.
      by destruct (forgeSteps rangeOrder a (step :: post) wk) as [[[e|]|] w2]. }
    rewrite Hrun, forgeSteps_cons.
    destruct (forgeStep rangeOrder a step wk) as [o w1].
    inversion Ht as [Hc' | c e Hc' He | c Hc' He Hnot | c data Hc' Hs]; subst;
      rewrite Hc in Hc'; try done; injection Hc' as <-.
    + do 2 eexists. exists (Some e). eexists. exists [].
      split; [reflexivity|]. cbn [snd called calls].
      rewrite app_nil_r. split; [reflexivity|]. split; [reflexivity|].
      split; apply value_entry_absent.
    + by destruct Hnot.
    + destruct (Hpost {| ledger := MarkCompleted (ledger wk) (Name step) data;
                         calls := calls wk ++ [amazon.CallBindPolicyToRole
                           (value (entry (StepsCompleted (ledger wk)) "policy") "output")
                           (value (entry (StepsCompleted (ledger wk)) "role") "output")] |})
        as [_ [cs Hcs]].
      do 2 eexists. exists None. eexists. exists cs.
      split; [reflexivity|]. cbn [calls] in *. split; [reflexivity|]. split; [exact Hcs|].
      split; apply value_entry_absent.
  - intros order payload f substitutions name Hm Horder.
    unfold substiteInPayload. rewrite Horder. cbn [foldl substitute].
    rewrite decide_False by done. rewrite decide_True by done.
    by rewrite (value_entry_absent _ _ _ Hm).
Qed.

End NameClaims.

Lemma C7_claim_as_stated_fails :
  ~ namedByStepName listOrder okProvider sampleBytes sampleRequest (blankWorld okProvider).
Proof.
  intros Hclaim.
  specialize (Hclaim [] stepS3 [stepPolicy; stepOther; stepRole; stepBind]
                (started okProvider sampleBytes sampleRequest (blankWorld okProvider))
                (amazon.CallCreateS3Bucket "redhat-cost-management-bucket-0123456789abcdef")).
  assert (Hin : Name stepS3 ∈ ["s3"; "policy"; "role"]) by (rewrite elem_of_cons; by left).
  specialize (Hclaim eq_refl eq_refl Hin eq_refl).
  vm_compute in Hclaim. discriminate Hclaim.
Qed.

Lemma C7_resource_names_use_labels_witness :
  (SuperKeySteps sampleRequest = [] ++ stepS3 :: [stepPolicy; stepOther; stepRole; stepBind] /\
   Name stepS3 ∈ ["s3"; "policy"; "role"]) /\
  exists c,
    calls (forgeStep listOrder okProvider stepS3
             (started okProvider sampleBytes sampleRequest (blankWorld okProvider))).2 = [c] /\
    createdName c = Some "redhat-cost-management-bucket-0123456789abcdef".
Proof.
  assert (Hin : Name stepS3 ∈ ["s3"; "policy"; "role"]) by (rewrite elem_of_cons; by left).
  split; [by split|].
  destruct (C7_resource_names_use_labels listOrder okProvider sampleBytes sampleRequest
              (blankWorld okProvider) [] stepS3 [stepPolicy; stepOther; stepRole; stepBind]
              (started okProvider sampleBytes sampleRequest (blankWorld okProvider))
              eq_refl eq_refl) as (Hcreate & _).
  destruct (Hcreate Hin) as (c & _ & Hcalls & Hname).
  exists c. split; [exact Hcalls | exact Hname].
Defined.

Lemma C10_absent_outputs_read_as_empty_witness :
  (SuperKeySteps bindFirstRequest = [] ++ stepBind :: [stepS3] /\
   Name stepBind = "bind_role" /\
   StepsCompleted (ledger (started okProvider sampleBytes bindFirstRequest
                             (blankWorld okProvider))) !! "policy" = None /\
   StepsCompleted (ledger (started okProvider sampleBytes bindFirstRequest
                             (blankWorld okProvider))) !! "role" = None) /\
  (exists cs,
     calls (ForgeApplication listOrder okProvider sampleBytes bindFirstRequest
              (blankWorld okProvider)).2
     = amazon.CallBindPolicyToRole "" "" :: cs) /\
  substiteInPayload (listOrder []) "arn:{{BUCKET}}"
    (newLedger okProvider bindFirstRequest "") {[ "{{BUCKET}}" := "s3" ]}
  = "arn:".
Proof.
  destruct (C10_absent_outputs_read_as_empty listOrder okProvider sampleBytes
              bindFirstRequest (blankWorld okProvider) [] stepBind [stepS3]
              (started okProvider sampleBytes bindFirstRequest (blankWorld okProvider)))
    as (_ & Hbind & Hsub).
  split; [repeat split|]. split.
  - destruct (Hbind eq_refl eq_refl eq_refl)
      as (p & r & o & w1 & cs & _ & Hw1 & Hrun & Hp & Hr).
    rewrite (Hp eq_refl), (Hr eq_refl) in Hw1.
    exists cs. rewrite Hrun, Hw1. reflexivity.
  - assert (Horder : listOrder [] {[ "{{BUCKET}}" := "s3" ]} = [("{{BUCKET}}", "s3")])
      by apply map_to_list_singleton.
    rewrite (Hsub (listOrder []) "arn:{{BUCKET}}" (newLedger okProvider bindFirstRequest "")
               {[ "{{BUCKET}}" := "s3" ]} "{{BUCKET}}" eq_refl Horder).
    reflexivity.
Defined.

(** ** Substitution *)

Lemma app_String (c : ascii) (s t : string) : String c s +:+ t = String c (s +:+ t).
Proof. reflexivity. Qed.

Lemma drop_length_le (k : nat) (s : string) :
  String.length (GoString.drop k s) <= String.length s.
Proof.
  revert k. induction s as [|c t IH]; intros [|k]; cbn; try lia.
  specialize (IH k). lia.
Qed.

Lemma HasPrefix_split (s p : string) :
  GoString.HasPrefix s p = true -> s = p +:+ GoString.drop (String.length p) s.
Proof.
  revert s. induction p as [|x p IH]; intros s; [done|].
  destruct s as [|y s]; cbn [GoString.HasPrefix]; [done|].
  destruct (Ascii.eqb x y) eqn:Hxy; [|done].
  apply Ascii.eqb_eq in Hxy as ->. intros Hp.
  rewrite app_String. cbn [String.length GoString.drop]. f_equal. by apply IH.
Qed.

Lemma replaceScan_skip (old new : string) (k : nat) (s : string) :
  GoString.replaceScan old new k s = GoString.replaceScan old new 0 (GoString.drop k s).
Proof.
  revert k. induction s as [|c t IH]; intros [|k]; try reflexivity.
  cbn [GoString.replaceScan GoString.drop]. apply IH.
Qed.

(** The scan replaces every instance of a non-empty token. *)
Lemma replaceScan_ReplacedAll (old new : string) (n : nat) (s : string) :
  old <> "" -> String.length s <= n ->
  ReplacedAll old new s (GoString.replaceScan old new 0 s).
Proof.
  intros Hold. revert s. induction n as [|n IH]; intros [|c t] Hlen;
    try (by apply ReplacedAll_end); cbn [String.length] in Hlen; [lia|].
  cbn [GoString.replaceScan].
  destruct (GoString.HasPrefix (String c t) old) eqn:Hp.
  - rewrite replaceScan_skip.
    assert (Hsplit : String c t = old +:+ GoString.drop (String.length old - 1) t).
    { rewrite (HasPrefix_split _ _ Hp) at 1. f_equal.
      destruct old as [|x old]; [done|]. cbn [String.length GoString.drop].
      by replace (S (String.length old) - 1) with (String.length old) by lia. }
    rewrite Hsplit at 1. apply ReplacedAll_token; [done|]. apply IH.
    pose proof (drop_length_le (String.length old - 1) t). lia.
  - apply ReplacedAll_keep; [done..|]. apply IH. lia.
Qed.

Lemma RuneWidth_le (s : string) : GoString.RuneWidth s <= String.length s.
Proof.
  destruct s as [|c0 [|c1 [|c2 [|c3 t]]]]; cbn -[N.ltb N.eqb Nat.ltb Nat.leb];
    repeat case_match; lia.
Qed.

Lemma runesFrom_cons (left : nat) (c : ascii) (t : string) :
  runesFrom left (String c t) <> [].
Proof. cbn [runesFrom]. by repeat case_match. Qed.

(** Putting [new] behind each UTF-8 sequence is what [afterRunes] does. *)
Lemma afterRunes_runes (new : string) (s : string) (left : nat) :
  left <= String.length s ->
  foldr (fun rune acc => rune +:+ new +:+ acc) "" (runesFrom left s)
  = GoString.afterRunes new left s.
Proof.
  revert left. induction s as [|c t IH]; intros left Hleft; [reflexivity|].
  cbn [runesFrom GoString.afterRunes].
  assert (Hk : match left with 0 => GoString.RuneWidth (String c t) | S _ => left end
               <= S (String.length t)).
  { destruct left; [apply (RuneWidth_le (String c t)) | exact Hleft]. }
  destruct (match left with 0 => GoString.RuneWidth (String c t) | S _ => left end)
    as [|[|k]].
  - cbn [foldr]. rewrite IH by lia. reflexivity.
  - cbn [foldr]. rewrite IH by lia. reflexivity.
  - rewrite <- (IH (S k)) by lia.
    destruct t as [|c' t']; [cbn in Hk; lia|].
    destruct (runesFrom (S k) (String c' t')) as [|rune rest] eqn:Hr.
    + by apply runesFrom_cons in Hr.
    + cbn [foldr]. by rewrite app_String.
Qed.

(** [strings.Replace] with no limit replaces every instance of the token. *)
Lemma ReplaceAll_ReplacedAll (s old new : string) :
  ReplacedAll old new s (GoString.ReplaceAll s old new).
Proof.
  unfold GoString.ReplaceAll. destruct old as [|x old].
  - rewrite <- (afterRunes_runes new s 0) by lia. by apply ReplacedAll_empty.
  - by apply (replaceScan_ReplacedAll _ _ (String.length s)).
Qed.


Lemma HasPrefix_app (old s : string) : GoString.HasPrefix (old +:+ s) old = true.
Proof.
  induction old as [|x old IH]; [reflexivity|]. rewrite app_String.
  cbn [GoString.HasPrefix]. by rewrite Ascii.eqb_refl.
Qed.

(** [ReplacedAll] determines its result. *)
Lemma ReplacedAll_functional (old new s r1 r2 : string) :
  ReplacedAll old new s r1 -> ReplacedAll old new s r2 -> r1 = r2.
Proof.
  intros H1. revert r2.
  induction H1 as [Hold | c s r Hold Hp H1 IH | s r Hold H1 IH | s Hold]; intros r2 H2.
  - inversion H2 as [ | | s' r' Ho H2' Heq | ]; subst; try done.
    destruct old; [done|]. by rewrite app_String in Heq.
  - inversion H2 as [ | c' s' r' Ho Hp' H2' | s' r' Ho H2' Heq | ]; subst; try done.
    + f_equal. by apply IH.
    + exfalso. rewrite <- Heq, HasPrefix_app in Hp. done.
  - inversion H2 as [ Ho Heq | c' s' r' Ho Hp H2' Heq | s' r' Ho H2' Heq | ]; subst; try done.
    + destruct old; [done|]. by rewrite app_String in Heq.
    + exfalso. rewrite Heq, HasPrefix_app in Hp. done.
    + apply (inj (String.app old)) in Heq as ->. f_equal. by apply IH.
  - inversion H2; subst; done.
Qed.




(** * Further properties *)

(** ** Identifiers and names *)

Lemma digit_isHexDigit (b : byte) :
  isHexDigit (GoHex.digit (Byte.to_N b / 16)) = true /\
  isHexDigit (GoHex.digit (Byte.to_N b mod 16)) = true.
Proof. destruct b; split; vm_compute; reflexivity. Qed.

Lemma hexValue_digit (b : byte) :
  hexValue (GoHex.digit (Byte.to_N b / 16)) = (Byte.to_N b / 16)%N /\
  hexValue (GoHex.digit (Byte.to_N b mod 16)) = (Byte.to_N b mod 16)%N.
Proof. destruct b; split; vm_compute; reflexivity. Qed.

(** A byte is determined by its two digits. *)
Lemma digits_inj (b1 b2 : byte) :
  GoHex.digit (Byte.to_N b1 / 16) = GoHex.digit (Byte.to_N b2 / 16) ->
  GoHex.digit (Byte.to_N b1 mod 16) = GoHex.digit (Byte.to_N b2 mod 16) ->
  b1 = b2.
Proof.
  intros Hhi Hlo. apply (f_equal hexValue) in Hhi, Hlo.
  destruct (hexValue_digit b1) as [H1 H1'], (hexValue_digit b2) as [H2 H2'].
  rewrite H1, H2 in Hhi. rewrite H1', H2' in Hlo.
  assert (Hn : Byte.to_N b1 = Byte.to_N b2).
  { rewrite (N.div_mod (Byte.to_N b1) 16), (N.div_mod (Byte.to_N b2) 16) by done.
    by rewrite Hhi, Hlo. }
  apply (f_equal Byte.of_N) in Hn. rewrite !Byte.of_to_N in Hn. by injection Hn.
Qed.

Lemma EncodeToString_inj (src1 src2 : list byte) :
  GoHex.EncodeToString src1 = GoHex.EncodeToString src2 -> src1 = src2.
Proof.
  revert src2. induction src1 as [|b1 src1 IH]; intros [|b2 src2]; cbn; try done.
  intros [= Hhi Hlo Hrest]. f_equal; [by apply digits_inj | by apply IH].
Qed.

(** X1.  The GUID has two characters for each random byte (sixteen for
    the eight bytes read), and each of them is one of [0-9a-f]. *)
Theorem X1_guid_is_lowercase_hex (bytes : list byte) :
  String.length (generateGUID bytes) = 2 * length bytes /\
  allBytes isHexDigit (generateGUID bytes) = true.
Proof.
  unfold generateGUID. induction bytes as [|b rest [IHlen IHhex]]; [done|].
  cbn [GoHex.EncodeToString String.length allBytes length]. split; [lia|].
  destruct (digit_isHexDigit b) as [-> ->]. exact IHhex.
Qed.

(** X2.  Two GUIDs are equal only if the random bytes they were made of
    are equal: the encoding loses nothing. *)
Theorem X2_guid_determines_bytes (bytes1 bytes2 : list byte) :
  generateGUID bytes1 = generateGUID bytes2 -> bytes1 = bytes2.
Proof. apply EncodeToString_inj. Qed.

Lemma X2_guid_determines_bytes_witness :
  generateGUID sampleBytes = generateGUID [x01; x23; x45; x67; x89; xab; xcd; xef] /\
  sampleBytes = [x01; x23; x45; x67; x89; xab; xcd; xef].
Proof.
  split; [reflexivity|].
  apply (X2_guid_determines_bytes sampleBytes [x01; x23; x45; x67; x89; xab; xcd; xef]).
  reflexivity.
Defined.

(** X3.  Within one application type, a resource name tells the kind of
    the step and the random bytes of the run: two creating steps, of any
    two runs, that pass the same name to the client are of the same kind
    and their runs drew the same bytes. *)
Theorem X3_name_determines_kind_and_bytes
    (rangeOrder : list amazon.Call -> gmap string string -> list (string * string))
    (bytes1 bytes2 : list byte) (step1 step2 : Step) (w1 w2 : World)
    (c1 c2 : amazon.Call) (n : string) :
  ApplicationType (Request (ledger w1)) = ApplicationType (Request (ledger w2)) ->
  GUID (ledger w1) = generateGUID bytes1 ->
  GUID (ledger w2) = generateGUID bytes2 ->
  stepCall rangeOrder step1 w1 = Some c1 ->
  stepCall rangeOrder step2 w2 = Some c2 ->
  createdName c1 = Some n ->
  createdName c2 = Some n ->
  Name step1 = Name step2 /\ bytes1 = bytes2.
Proof.
  intros Happ Hg1 Hg2 Hc1 Hc2 Hn1 Hn2. unfold stepCall in Hc1, Hc2.
  rewrite Happ, Hg1 in Hc1. rewrite Hg2 in Hc2.
  repeat case_decide; simplify_eq/=;
    (split; [congruence | by apply EncodeToString_inj]).
Qed.

Lemma X3_name_determines_kind_and_bytes_witness :
  Name stepS3 = Name stepS3 /\ sampleBytes = sampleBytes.
Proof.
  apply (X3_name_determines_kind_and_bytes listOrder sampleBytes sampleBytes stepS3 stepS3
           (started okProvider sampleBytes sampleRequest (blankWorld okProvider))
           (started noRoleProvider sampleBytes sampleRequest (blankWorld noRoleProvider))
           (amazon.CallCreateS3Bucket "redhat-cost-management-bucket-0123456789abcdef")
           (amazon.CallCreateS3Bucket "redhat-cost-management-bucket-0123456789abcdef")
           "redhat-cost-management-bucket-0123456789abcdef");
    reflexivity.
Defined.

(** ** The short name *)

Lemma ContainsByte_LastIndexByte (s : string) (c : ascii) :
  GoString.ContainsByte s c = false -> GoString.LastIndexByte s c = None.
Proof.
  induction s as [|x t IH]; [done|]. cbn.
  destruct (Ascii.eqb x c); [done|]. intros Ht. by rewrite (IH Ht).
Qed.

Lemma LastIndexByte_app (s t : string) (c : ascii) (i : nat) :
  GoString.LastIndexByte t c = Some i ->
  GoString.LastIndexByte (s +:+ t) c = Some (String.length s + i).
Proof.
  intros Ht. induction s as [|x s IH]; [done|].
  rewrite app_String. cbn [GoString.LastIndexByte String.length]. by rewrite IH.
Qed.

Lemma drop_app_cons (s t : string) (c : ascii) :
  GoString.drop (S (String.length s)) (s +:+ String c t) = t.
Proof.
  induction s as [|x s IH]; [by destruct t|]. rewrite app_String. exact IH.
Qed.

Lemma TrimRightByte_clean (s : string) (c : ascii) :
  s <> "" -> GoString.ContainsByte s c = false -> GoString.TrimRightByte s c = s.
Proof.
  induction s as [|x t IH]; [done|]. intros _. cbn.
  destruct (Ascii.eqb x c); [done|]. intros Ht.
  destruct t as [|y t]; [done|]. by rewrite IH.
Qed.

Lemma TrimRightByte_app (s t : string) (c : ascii) :
  t <> "" -> GoString.TrimRightByte t c = t -> GoString.TrimRightByte (s +:+ t) c = s +:+ t.
Proof.
  intros Hne Ht. induction s as [|x s IH]; [done|].
  rewrite app_String. cbn [GoString.TrimRightByte]. rewrite IH.
  destruct s; [by destruct t | done].
Qed.

Lemma TrimRightByte_snoc (s : string) (c : ascii) :
  GoString.TrimRightByte (s +:+ String c "") c = GoString.TrimRightByte s c.
Proof.
  induction s as [|x s IH].
  - change (GoString.TrimRightByte (String c "") c = "").
    cbn [GoString.TrimRightByte]. by rewrite Ascii.eqb_refl.
  - rewrite app_String. cbn [GoString.TrimRightByte]. by rewrite IH.
Qed.

(** X4.  The short name is made of the last element of the application
    type alone: whatever directories precede it, a last element [name]
    (not empty, without a slash) gives [redhat-name]; so application types
    that end in the same element share their short name. *)
Theorem X4_short_name_of_last_element (dir name : string) :
  name <> "" ->
  GoString.ContainsByte name "/" = false ->
  getShortName (dir +:+ "/" +:+ name) = "redhat-" +:+ name /\
  getShortName name = "redhat-" +:+ name.
Proof.
  intros Hne Hclean. unfold getShortName, GoPath.Base.
  assert (Htrim : GoString.TrimRightByte name "/" = name)
    by by apply TrimRightByte_clean.
  split; f_equal.
  - rewrite decide_False by (destruct dir; done).
    rewrite (TrimRightByte_app dir ("/" +:+ name)); [|done|].
    + assert (Hlast : GoString.LastIndexByte ("/" +:+ name) "/" = Some 0).
      { change ("/" +:+ name) with (String "/" name). cbn [GoString.LastIndexByte].
        by rewrite (ContainsByte_LastIndexByte _ _ Hclean). }
      rewrite (LastIndexByte_app dir _ _ _ Hlast), Nat.add_0_r.
      change ("/" +:+ name) with (String "/" name).
      rewrite drop_app_cons. by rewrite decide_False.
    + change ("/" +:+ name) with (String "/" name).
      cbn [GoString.TrimRightByte]. rewrite Htrim. by destruct name.
  - rewrite decide_False by done. rewrite Htrim.
    rewrite (ContainsByte_LastIndexByte _ _ Hclean). by rewrite decide_False.
Qed.

Lemma X4_short_name_of_last_element_witness :
  ("cost-management" <> "" /\ GoString.ContainsByte "cost-management" "/" = false) /\
  getShortName ("/insights/platform" +:+ "/" +:+ "cost-management")
  = "redhat-cost-management" /\
  getShortName ("/other/place" +:+ "/" +:+ "cost-management")
  = "redhat-cost-management".
Proof.
  assert (Hne : "cost-management" <> "") by done.
  assert (Hclean : GoString.ContainsByte "cost-management" "/" = false) by reflexivity.
  split; [by split|]. split.
  - apply (X4_short_name_of_last_element "/insights/platform" "cost-management" Hne Hclean).
  - apply (X4_short_name_of_last_element "/other/place" "cost-management" Hne Hclean).
Defined.

(** X5.  A slash at the end of a non-empty application type does not
    change the short name. *)
Theorem X5_short_name_ignores_trailing_slash (p : string) :
  p <> "" -> getShortName (p +:+ "/") = getShortName p.
Proof.
  intros Hne. unfold getShortName, GoPath.Base.
  rewrite (decide_False (P := p +:+ "/" = "")) by (by destruct p).
  rewrite (decide_False (P := p = "")) by done.
  by rewrite TrimRightByte_snoc.
Qed.

Lemma X5_short_name_ignores_trailing_slash_witness :
  "/app/foo" <> "" /\ getShortName ("/app/foo" +:+ "/") = "redhat-foo".
Proof.
  assert (Hne : "/app/foo" <> "") by done.
  split; [exact Hne|].
  rewrite (X5_short_name_ignores_trailing_slash "/app/foo" Hne). reflexivity.
Defined.

(** ** The templater on payloads it has nothing to do with *)

Lemma replaceScan_absent (old new s : string) :
  Contains s old = false -> GoString.replaceScan old new 0 s = s.
Proof.
  induction s as [|c t IH]; [done|]. cbn [Contains GoString.replaceScan].
  intros [Hp Ht]%orb_false_elim. rewrite Hp. by rewrite IH.
Qed.

Lemma ReplaceAll_absent (s old new : string) :
  Contains s old = false -> GoString.ReplaceAll s old new = s.
Proof.
  intros Hs. unfold GoString.ReplaceAll. destruct old as [|x old].
  - by destruct s.
  - by apply replaceScan_absent.
Qed.

Lemma foldl_substitute_idle (f : Ledger) (entries : list (string * string))
    (payload : string) :
  (forall name sub, (name, sub) ∈ entries ->
     (sub <> "get_account" /\ sub <> "s3") \/ Contains payload name = false) ->
  foldl (substitute f) payload entries = payload.
Proof.
  induction entries as [|[name sub] rest IH]; intros Hidle; [done|].
  cbn [foldl].
  assert (Hstep : substitute f payload (name, sub) = payload).
  { unfold substitute.
    destruct (Hidle name sub) as [[Ha Hs] | Habs]; [apply elem_of_cons; by left | |].
    - by rewrite !decide_False.
    - repeat case_decide; try done; by apply ReplaceAll_absent. }
  rewrite Hstep. apply IH. intros name' sub' Hin. apply Hidle.
  apply elem_of_cons. by right.
Qed.

(** X6.  The templater returns the payload as it is, in whatever order
    the map is visited, when every entry of the map has a source other
    than [get_account] and [s3] or a token that does not occur in the
    payload. *)
Theorem X6_templater_leaves_payload
    (order : gmap string string -> list (string * string))
    (payload : string) (f : Ledger) (substitutions : gmap string string) :
  order substitutions ≡ₚ map_to_list substitutions ->
  (forall name sub, substitutions !! name = Some sub ->
     (sub <> "get_account" /\ sub <> "s3") \/ Contains payload name = false) ->
  substiteInPayload order payload f substitutions = payload.
Proof.
  intros Hperm Hidle. apply foldl_substitute_idle. intros name sub Hin.
  apply Hidle. rewrite Hperm in Hin. by apply elem_of_map_to_list.
Qed.

Lemma X6_templater_leaves_payload_witness :
  substiteInPayload (listOrder []) "Resource=arn:aws:s3:::{{BUCKET}}" (fullLedger okProvider)
    (<[ "{{ACCOUNT}}" := "get_account" ]> {[ "{{BUCKET}}" := "bucket" ]})
  = "Resource=arn:aws:s3:::{{BUCKET}}".
Proof.
  apply (X6_templater_leaves_payload (listOrder []) "Resource=arn:aws:s3:::{{BUCKET}}"
           (fullLedger okProvider)
           (<[ "{{ACCOUNT}}" := "get_account" ]> {[ "{{BUCKET}}" := "bucket" ]})).
  - reflexivity.
  - intros name sub Hlook.
    apply lookup_insert_Some in Hlook as [[<- <-] | [_ Hlook]].
    + right. reflexivity.
    + apply lookup_singleton_Some in Hlook as [<- <-]. left. by split.
Defined.

Lemma ReplacedAll_same (old : string) (n : nat) (s : string) :
  old <> "" -> String.length s <= n -> ReplacedAll old old s s.
Proof.
  intros Hold. revert s. induction n as [|n IH]; intros [|c t] Hlen;
    try (by apply ReplacedAll_end); cbn [String.length] in Hlen; [lia|].
  destruct (GoString.HasPrefix (String c t) old) eqn:Hp.
  - rewrite (HasPrefix_split _ _ Hp). apply ReplacedAll_token; [done|]. apply IH.
    destruct old as [|x old]; [done|]. cbn [String.length GoString.drop].
    pose proof (drop_length_le (String.length old) t). lia.
  - apply ReplacedAll_keep; [done..|]. apply IH. lia.
Qed.

Lemma afterRunes_nothing (left : nat) (s : string) :
  GoString.afterRunes "" left s = s.
Proof.
  revert left. induction s as [|c t IH]; intros left; [done|].
  cbn [GoString.afterRunes]. repeat case_match; rewrite IH; reflexivity.
Qed.

(** X7.  Replacing a token by itself gives the string back, also for the
    empty token: an entry whose value is its own token changes nothing. *)
Theorem X7_replace_token_by_itself (s old : string) :
  GoString.ReplaceAll s old old = s.
Proof.
  destruct old as [|x old].
  - unfold GoString.ReplaceAll. by rewrite afterRunes_nothing.
  - apply (ReplacedAll_functional (String x old) (String x old) s).
    + apply ReplaceAll_ReplacedAll.
    + by apply (ReplacedAll_same _ (String.length s)).
Qed.

(** ** More on forging *)

Section ForgeMore.

Variable rangeOrder : list amazon.Call -> gmap string string -> list (string * string).
Variable a : AmazonProvider.

Lemma stepCall_kind step w c :
  stepCall rangeOrder step w = Some c -> createKind c = Some (Name step).
Proof.
  unfold stepCall. repeat case_decide; intros [= <-]; cbn; congruence.
Qed.

(** What a step records when its call succeeds. *)
Lemma forgeStep_records step w c :
  stepCall rangeOrder step w = Some c ->
  succeeded (Client a) (calls w) c ->
  forgeStep rangeOrder a step w =
    (Val None, {| ledger := MarkCompleted (ledger w) (Name step)
                              (recorded (Client a) (calls w) c);
                  calls := calls w ++ [c] |}).
Proof.
  unfold stepCall, forgeStep, succeeded.
  repeat case_decide; intros [= <-]; cbn [amazon.failure amazon.pointer recorded];
    intros [He Hp]; run_world; rewrite He;
    try match type of Hp with is_Some _ => destruct Hp as [v ->] end;
    match goal with Hn : Name step = _ |- _ => rewrite Hn end;
    reflexivity.
Qed.

Lemma failed_not_succeeded (cl : amazon.Client) h c e :
  amazon.failure cl h c = Some e -> ~ succeeded cl h c.
Proof. intros He [Hf _]. congruence. Qed.

(** A property of worlds that every call of the loop keeps, whether it
    fails or succeeds, holds of the world the loop ends in. *)
Lemma forgeSteps_invariant (I : World -> Prop) :
  (forall step w c,
     I w -> stepCall rangeOrder step w = Some c ->
     ~ succeeded (Client a) (calls w) c -> I (called w c)) ->
  (forall step w c,
     I w -> stepCall rangeOrder step w = Some c ->
     succeeded (Client a) (calls w) c ->
     I {| ledger := MarkCompleted (ledger w) (Name step) (recorded (Client a) (calls w) c);
          calls := calls w ++ [c] |}) ->
  forall steps w, I w -> I (forgeSteps rangeOrder a steps w).2.
Proof.
  intros Hfail Hok steps. induction steps as [|step rest IH]; intros w Hw; [done|].
  rewrite forgeSteps_cons.
  destruct (stepCall rangeOrder step w) as [c|] eqn:Hc.
  - destruct (amazon.failure (Client a) (calls w) c) as [e|] eqn:He.
    + rewrite (forgeStep_fail _ _ _ _ _ _ Hc He). cbn [snd].
      eapply Hfail; eauto using failed_not_succeeded.
    + assert (Hdec : Decision (succeeded (Client a) (calls w) c)).
      { unfold succeeded. destruct c; apply _. }
      destruct Hdec as [Hs | Hn].
      * rewrite (forgeStep_records _ _ _ Hc Hs). apply IH. by eapply Hok.
      * rewrite (forgeStep_panic _ _ _ _ _ Hc He Hn). cbn [snd]. by eapply Hfail.
  - rewrite (forgeStep_skip _ _ _ _ Hc). by apply IH.
Qed.

(** The world [ForgeApplication] ends in differs from the one its loop
    ends in by the result fields at most. *)
Lemma ForgeApplication_world bytes request w :
  calls (ForgeApplication rangeOrder a bytes request w).2
  = calls (forgeSteps rangeOrder a (SuperKeySteps request) (started a bytes request w)).2 /\
  StepsCompleted (ledger (ForgeApplication rangeOrder a bytes request w).2)
  = StepsCompleted
      (ledger (forgeSteps rangeOrder a (SuperKeySteps request) (started a bytes request w)).2).
Proof.
  rewrite ForgeApplication_run.
  by destruct (forgeSteps rangeOrder a (SuperKeySteps request) _) as [[[e|]|] w'].
Qed.

End ForgeMore.

Section ForgeCalls.

Variable rangeOrder : list amazon.Call -> gmap string string -> list (string * string).
Variable a : AmazonProvider.

Lemma filter_recognized_cons step (rest : list Step) :
  filter (fun n => recognized n = true) (Name <$> step :: rest) =
    if recognized (Name step)
    then Name step :: filter (fun n => recognized n = true) (Name <$> rest)
    else filter (fun n => recognized n = true) (Name <$> rest).
Proof.
  rewrite fmap_cons, filter_cons. destruct (recognized (Name step)) eqn:Hr.
  - by rewrite decide_True.
  - by rewrite decide_False.
Qed.

Lemma stepCall_Some_recognized step w c :
  stepCall rangeOrder step w = Some c -> recognized (Name step) = true.
Proof. intros Hc. apply (stepCall_recognized rangeOrder step w). rewrite Hc. eauto. Qed.

Lemma stepCall_None_recognized step w :
  stepCall rangeOrder step w = None -> recognized (Name step) = false.
Proof.
  intros Hc. destruct (recognized (Name step)) eqn:Hr; [|done].
  apply (stepCall_recognized rangeOrder step w) in Hr. rewrite Hc in Hr.
  by apply is_Some_None in Hr.
Qed.

(** The loop makes one call for each recognized step it reaches, each a
    creation or bind call. *)
Lemma forgeSteps_calls steps w :
  exists cs,
    calls (forgeSteps rangeOrder a steps w).2 = calls w ++ cs /\
    Forall (fun c => is_Some (createKind c)) cs /\
    length cs <= length (filter (fun n => recognized n = true) (Name <$> steps)) /\
    ((forgeSteps rangeOrder a steps w).1 = Val None ->
     length cs = length (filter (fun n => recognized n = true) (Name <$> steps))).
Proof.
  revert w. induction steps as [|step rest IH]; intros w.
  - exists []. cbn. rewrite app_nil_r. repeat split; auto.
  - rewrite forgeSteps_cons, filter_recognized_cons.
    pose proof (forgeStep_turn rangeOrder a step w) as Ht.
    destruct (forgeStep rangeOrder a step w) as [o w1].
    inversion Ht as [Hc | c e Hc He | c Hc He Hn | c data Hc Hs]; subst.
    + rewrite (stepCall_None_recognized _ _ Hc). apply IH.
    + rewrite (stepCall_Some_recognized _ _ _ Hc). exists [c]. cbn [snd fst called calls].
      split; [done|]. split; [|split; [cbn; lia | done]].
      apply Forall_singleton. rewrite (stepCall_kind _ _ _ _ Hc). eauto.
    + rewrite (stepCall_Some_recognized _ _ _ Hc). exists [c]. cbn [snd fst called calls].
      split; [done|]. split; [|split; [cbn; lia | done]].
      apply Forall_singleton. rewrite (stepCall_kind _ _ _ _ Hc). eauto.
    + rewrite (stepCall_Some_recognized _ _ _ Hc).
      destruct (IH {| ledger := MarkCompleted (ledger w) (Name step) data;
                      calls := calls w ++ [c] |}) as (cs & Hcs & Hall & Hle & Heq).
      exists (c :: cs). cbn [calls] in Hcs. rewrite Hcs, <- app_assoc.
      split; [done|]. split; [|split; [cbn; lia | intros Hv; cbn; by rewrite Heq]].
      apply Forall_cons. split; [|done]. rewrite (stepCall_kind _ _ _ _ Hc). eauto.
Qed.

(** X8.  [ForgeApplication] makes at most one remote call for each
    recognized step of the request, exactly one when it returns a nil
    error, and every call is a creation or bind call: it never retries a
    step and never destroys or unbinds anything, also when a step fails. *)
Theorem X8_forge_one_call_per_step_no_cleanup bytes request w :
  exists cs,
    calls (ForgeApplication rangeOrder a bytes request w).2 = calls w ++ cs /\
    Forall (fun c => is_Some (createKind c) /\ cleanupKind c = None) cs /\
    length cs
    <= length (filter (fun n => recognized n = true) (Name <$> SuperKeySteps request)) /\
    (forall f w',
       ForgeApplication rangeOrder a bytes request w = (Val (f, None), w') ->
       length cs
       = length (filter (fun n => recognized n = true) (Name <$> SuperKeySteps request))).
Proof.
  destruct (forgeSteps_calls (SuperKeySteps request) (started a bytes request w))
    as (cs & Hcs & Hall & Hle & Heq).
  destruct (ForgeApplication_world rangeOrder a bytes request w) as [Hcalls _].
  exists cs. rewrite Hcalls, Hcs. split; [done|]. split; [|split; [done|]].
  - eapply Forall_impl; [exact Hall|]. intros c Hc. split; [done|].
    destruct c; try done; by apply is_Some_None in Hc.
  - intros f w' Hrun. apply Heq. rewrite ForgeApplication_run in Hrun.
    by destruct (forgeSteps rangeOrder a (SuperKeySteps request) _) as [[[e|]|] w1].
Qed.

End ForgeCalls.

Lemma X8_forge_one_call_per_step_no_cleanup_witness :
  exists cs,
    calls (ForgeApplication listOrder okProvider sampleBytes sampleRequest
             (blankWorld okProvider)).2 = cs /\
    length cs = 4.
Proof.
  destruct (X8_forge_one_call_per_step_no_cleanup listOrder okProvider sampleBytes
              sampleRequest (blankWorld okProvider)) as (cs & Hcs & _ & _ & Heq).
  exists cs. split; [exact Hcs|].
  destruct (ForgeApplication listOrder okProvider sampleBytes sampleRequest
              (blankWorld okProvider)) as [[[f [e|]]|] w'] eqn:Hrun;
    try (vm_compute in Hrun; discriminate Hrun).
  rewrite (Heq f w' eq_refl). reflexivity.
Defined.

Section ForgeEdges.

Variable rangeOrder : list amazon.Call -> gmap string string -> list (string * string).
Variable a : AmazonProvider.

(** X9.  When a step that is reached has its creation call answered with
    neither an error nor an identifier, [ForgeApplication] panics: the
    call has been made, nothing is returned, no later step is interpreted
    and the ledger is as the earlier steps left it.  Only [policy] and
    [role] steps can end in this way. *)
Theorem X9_forge_panics_on_nil_identifier bytes request w pre step post wk c :
  SuperKeySteps request = pre ++ step :: post ->
  forgeSteps rangeOrder a pre (started a bytes request w) = (Val None, wk) ->
  stepCall rangeOrder step wk = Some c ->
  amazon.failure (Client a) (calls wk) c = None ->
  amazon.pointer (Client a) (calls wk) c = None ->
  Name step ∈ ["policy"; "role"] ->
  ForgeApplication rangeOrder a bytes request w = (Panic, called wk c).
Proof.
  intros Hsteps Hpre Hc He Hp Hin.
  rewrite ForgeApplication_run, Hsteps, forgeSteps_app, Hpre, forgeSteps_cons.
  rewrite (forgeStep_panic _ _ _ _ _ Hc He); [done|].
  intros [_ Hs]. pose proof (stepCall_kind _ _ _ _ Hc) as Hk.
  destruct c; cbn in Hk, Hs, Hp; try discriminate Hk; injection Hk as Hk;
    try (rewrite Hp in Hs; by apply is_Some_None in Hs);
    rewrite <- Hk in Hin; repeat (apply elem_of_cons in Hin as [Heq | Hin]; [done|]);
    by apply elem_of_nil in Hin.
Qed.



(** X11.  Whatever [ForgeApplication] returns, with or without an error,
    the ledger is the one the world holds, it carries the request that was
    passed, the provider itself as client and the GUID made of the random
    bytes; and when an error is returned the result fields are not set. *)
Theorem X11_forge_ledger_identity bytes request w f err w' :
  ForgeApplication rangeOrder a bytes request w = (Val (f, err), w') ->
  ledger w' = f /\
  Request f = request /\
  superkey.Client f = a /\
  GUID f = generateGUID bytes /\
  (is_Some err -> resultUsername f = None /\ resultPassword f = None /\ resultExtra f = None).
Proof.
  rewrite ForgeApplication_run.
  destruct (forgeSteps_frame rangeOrder a (SuperKeySteps request)
              (started a bytes request w)) as [(Hr & Hg & Hc & Hu & Hp & Hx) _].
  destruct (forgeSteps rangeOrder a (SuperKeySteps request) _) as [[[e|]|] w1];
    intros [= <- <- <-]; cbn [snd ledger CreatePayload Request GUID superkey.Client] in *.
  - rewrite Hr, Hg, Hc, Hu, Hp, Hx. by repeat split.
  - rewrite Hr, Hg, Hc. repeat split; try done; by intros []%is_Some_None.
Qed.

End ForgeEdges.

Lemma X9_forge_panics_on_nil_identifier_witness :
  ForgeApplication listOrder silentProvider sampleBytes sampleRequest
    (blankWorld silentProvider)
  = (Panic,
     called
       {| ledger := MarkCompleted
                      (newLedger silentProvider sampleRequest "0123456789abcdef") "s3"
                      {[ "output" := "redhat-cost-management-bucket-0123456789abcdef" ]};
          calls := [amazon.CallCreateS3Bucket
                      "redhat-cost-management-bucket-0123456789abcdef"] |}
       (amazon.CallCreatePolicy "redhat-cost-management-policy-0123456789abcdef"
          "Resource=arn:aws:s3:::redhat-cost-management-bucket-0123456789abcdef")).
Proof.
  apply (X9_forge_panics_on_nil_identifier listOrder silentProvider sampleBytes
           sampleRequest (blankWorld silentProvider) [stepS3] stepPolicy
           [stepOther; stepRole; stepBind]).
  - reflexivity.
  - vm_compute. reflexivity.
  - vm_compute. reflexivity.
  - reflexivity.
  - reflexivity.
  - apply elem_of_cons. by left.
Defined.


Lemma X11_forge_ledger_identity_witness :
  Request (ledger beforeRole) = sampleRequest /\
  GUID (ledger beforeRole) = "0123456789abcdef" /\
  resultUsername (ledger beforeRole) = None.
Proof.
  destruct (X11_forge_ledger_identity listOrder noRoleProvider sampleBytes sampleRequest
              (blankWorld noRoleProvider) (ledger beforeRole) (Some "AccessDenied")
              (called beforeRole roleCall))
    as (_ & Hreq & _ & Hguid & Hres).
  - vm_compute. reflexivity.
  - destruct Hres as (Hu & _); [by eexists|]. by repeat split.
Defined.

(** ** What the ledger holds *)

Lemma entry_insert_eq (m : gmap string (gmap string string)) (k : string)
    (d : gmap string string) :
  entry (<[k := d]> m) k = d.
Proof. unfold entry. by rewrite lookup_insert_eq. Qed.

Lemma entry_insert_ne (m : gmap string (gmap string string)) (k k' : string)
    (d : gmap string string) :
  k <> k' -> entry (<[k := d]> m) k' = entry m k'.
Proof. intros Hne. unfold entry. by rewrite lookup_insert_ne. Qed.

Section LedgerContents.

Variable rangeOrder : list amazon.Call -> gmap string string -> list (string * string).
Variable a : AmazonProvider.

(** X12.  A step whose call succeeds records what [TearDown] will need:
    the [s3] step the bucket name it passed, the [policy] step the ARN the
    client returned, the [role] step the role name it passed and the ARN
    returned, the [bind_role] step an empty map; the entry replaces any
    earlier entry of that name. *)
Theorem X12_step_records_identifiers step w c :
  stepCall rangeOrder step w = Some c ->
  succeeded (Client a) (calls w) c ->
  (forgeStep rangeOrder a step w).1 = Val None /\
  match c with
  | amazon.CallCreateS3Bucket n =>
      StepsCompleted (ledger (forgeStep rangeOrder a step w).2) !! "s3"
      = Some {[ "output" := n ]}
  | amazon.CallCreatePolicy n p =>
      exists arn,
        fst (amazon.CreatePolicy (Client a) (calls w) n p) = Some arn /\
        StepsCompleted (ledger (forgeStep rangeOrder a step w).2) !! "policy"
        = Some {[ "output" := arn ]}
  | amazon.CallCreateRole n p =>
      exists arn,
        fst (amazon.CreateRole (Client a) (calls w) n p) = Some arn /\
        StepsCompleted (ledger (forgeStep rangeOrder a step w).2) !! "role"
        = Some (<[ "output" := n ]> {[ "arn" := arn ]})
  | amazon.CallBindPolicyToRole _ _ =>
      StepsCompleted (ledger (forgeStep rangeOrder a step w).2) !! "bind_role" = Some ∅
  | _ => False
  end.
Proof.
  intros Hc Hs. rewrite (forgeStep_records _ _ _ _ _ Hc Hs).
  split; [reflexivity|]. cbn [snd ledger MarkCompleted StepsCompleted].
  pose proof (stepCall_kind _ _ _ _ Hc) as Hk. destruct Hs as [_ Hp].
  destruct c; cbn in Hk; try discriminate Hk; injection Hk as <-;
    cbn [recorded amazon.pointer] in *; rewrite lookup_insert_eq; try done;
    destruct Hp as [arn Harn]; exists arn; by rewrite Harn.
Qed.

(** The loop writes under the names of its steps only, and removes
    nothing. *)
Lemma forgeSteps_entries steps w (k : string) :
  (k ∉ (Name <$> steps) ->
   StepsCompleted (ledger (forgeSteps rangeOrder a steps w).2) !! k
   = StepsCompleted (ledger w) !! k) /\
  (is_Some (StepsCompleted (ledger w) !! k) ->
   is_Some (StepsCompleted (ledger (forgeSteps rangeOrder a steps w).2) !! k)).
Proof.
  revert w. induction steps as [|step rest IH]; intros w; [done|].
  rewrite forgeSteps_cons, fmap_cons, not_elem_of_cons.
  pose proof (forgeStep_turn rangeOrder a step w) as Ht.
  destruct (forgeStep rangeOrder a step w) as [o w1].
  inversion Ht as [Hc | c e Hc He | c Hc He Hn | c data Hc Hs]; subst;
    cbn [snd called ledger]; try done.
  - destruct (IH w1) as [Hkeep Hmono]. split; [intros [_ Hk]|]; auto.
  - destruct (IH {| ledger := MarkCompleted (ledger w) (Name step) data;
                    calls := calls w ++ [c] |}) as [Hkeep Hmono].
    cbn [ledger MarkCompleted StepsCompleted] in *. split.
    + intros [Hne Hk]. rewrite (Hkeep Hk). by rewrite lookup_insert_ne.
    + intros Hsome. apply Hmono. rewrite lookup_insert. by case_decide.
Qed.

(** X13.  [ForgeApplication] writes ledger entries under the names of the
    request's steps only: a name that is not the name of a step has no
    entry in the world it ends in, whether it returns, fails or panics. *)
Theorem X13_forge_writes_only_step_names bytes request w (k : string) :
  k ∉ (Name <$> SuperKeySteps request) ->
  StepsCompleted (ledger (ForgeApplication rangeOrder a bytes request w).2) !! k = None.
Proof.
  intros Hk. destruct (ForgeApplication_world rangeOrder a bytes request w) as [_ ->].
  destruct (forgeSteps_entries (SuperKeySteps request) (started a bytes request w) k)
    as [-> _]; done.
Qed.

End LedgerContents.

Lemma X12_step_records_identifiers_witness :
  StepsCompleted
    (ledger (forgeStep listOrder okProvider stepRole (fullWorld okProvider)).2) !! "role"
  = Some (<[ "output" := "redhat-cost-management-role-0123456789abcdef" ]>
          {[ "arn" := arnOf "role" "redhat-cost-management-role-0123456789abcdef" ]}).
Proof.
  destruct (X12_step_records_identifiers listOrder okProvider stepRole (fullWorld okProvider)
              (amazon.CallCreateRole "redhat-cost-management-role-0123456789abcdef"
                 "Principal=arn:aws:iam::123456789012:root"))
    as (_ & arn & Harn & Hentry).
  - vm_compute. reflexivity.
  - apply okClient_succeeds.
  - rewrite Hentry. cbn in Harn. by injection Harn as <-.
Defined.

Lemma X13_forge_writes_only_step_names_witness :
  StepsCompleted
    (ledger (ForgeApplication listOrder okProvider sampleBytes bindFirstRequest
               (blankWorld okProvider)).2) !! "policy" = None.
Proof.
  apply (X13_forge_writes_only_step_names listOrder okProvider sampleBytes bindFirstRequest
           (blankWorld okProvider) "policy").
  cbn. rewrite !not_elem_of_cons. repeat split; try done. apply not_elem_of_nil.
Defined.

(** ** Forging, then tearing down *)

Lemma teardownCalls_elem (f : Ledger) (c : amazon.Call) :
  c ∈ teardownCalls f ->
  (is_Some (StepsCompleted f !! "bind_role") /\
   c = amazon.CallUnBindPolicyToRole (value (entry (StepsCompleted f) "policy") "output")
                                     (value (entry (StepsCompleted f) "role") "output")) \/
  (is_Some (StepsCompleted f !! "policy") /\
   c = amazon.CallDestroyPolicy (value (entry (StepsCompleted f) "policy") "output")) \/
  (is_Some (StepsCompleted f !! "role") /\
   c = amazon.CallDestroyRole (value (entry (StepsCompleted f) "role") "output")) \/
  (is_Some (StepsCompleted f !! "s3") /\
   c = amazon.CallDestroyS3Bucket (value (entry (StepsCompleted f) "s3") "output")).
Proof.
  unfold teardownCalls. rewrite !elem_of_app.
  intros [H | [H | [H | H]]]; case_decide; try (by apply elem_of_nil in H);
    apply list_elem_of_singleton in H; auto 6.
Qed.

Section ForgeThenTearDown.

Variable rangeOrder : list amazon.Call -> gmap string string -> list (string * string).
Variable a : AmazonProvider.

(** Each entry of the ledger comes from a call of the run: the invariant
    of the loop behind [holdsCreated]. *)
Lemma forgeSteps_origin (h0 : list amazon.Call) steps w :
  (exists cs, calls w = h0 ++ cs /\
     (is_Some (StepsCompleted (ledger w) !! "bind_role") ->
      exists p r, amazon.CallBindPolicyToRole p r ∈ cs) /\
     (is_Some (StepsCompleted (ledger w) !! "policy") ->
      exists h n payload rest,
        cs = h ++ amazon.CallCreatePolicy n payload :: rest /\
        fst (amazon.CreatePolicy (Client a) (h0 ++ h) n payload)
        = Some (value (entry (StepsCompleted (ledger w)) "policy") "output")) /\
     (is_Some (StepsCompleted (ledger w) !! "role") ->
      exists payload,
        amazon.CallCreateRole (value (entry (StepsCompleted (ledger w)) "role") "output")
          payload ∈ cs) /\
     (is_Some (StepsCompleted (ledger w) !! "s3") ->
      amazon.CallCreateS3Bucket (value (entry (StepsCompleted (ledger w)) "s3") "output")
        ∈ cs)) ->
  exists cs, calls (forgeSteps rangeOrder a steps w).2 = h0 ++ cs /\
     (is_Some (StepsCompleted (ledger (forgeSteps rangeOrder a steps w).2) !! "bind_role") ->
      exists p r, amazon.CallBindPolicyToRole p r ∈ cs) /\
     (is_Some (StepsCompleted (ledger (forgeSteps rangeOrder a steps w).2) !! "policy") ->
      exists h n payload rest,
        cs = h ++ amazon.CallCreatePolicy n payload :: rest /\
        fst (amazon.CreatePolicy (Client a) (h0 ++ h) n payload)
        = Some (value (entry (StepsCompleted
                                (ledger (forgeSteps rangeOrder a steps w).2)) "policy")
                  "output")) /\
     (is_Some (StepsCompleted (ledger (forgeSteps rangeOrder a steps w).2) !! "role") ->
      exists payload,
        amazon.CallCreateRole
          (value (entry (StepsCompleted (ledger (forgeSteps rangeOrder a steps w).2)) "role")
             "output") payload ∈ cs) /\
     (is_Some (StepsCompleted (ledger (forgeSteps rangeOrder a steps w).2) !! "s3") ->
      amazon.CallCreateS3Bucket
        (value (entry (StepsCompleted (ledger (forgeSteps rangeOrder a steps w).2)) "s3")
           "output") ∈ cs).
Proof.
  revert w.
  apply (forgeSteps_invariant rangeOrder a
           (fun w => exists cs, calls w = h0 ++ cs /\
              (is_Some (StepsCompleted (ledger w) !! "bind_role") ->
               exists p r, amazon.CallBindPolicyToRole p r ∈ cs) /\
              (is_Some (StepsCompleted (ledger w) !! "policy") ->
               exists h n payload rest,
                 cs = h ++ amazon.CallCreatePolicy n payload :: rest /\
                 fst (amazon.CreatePolicy (Client a) (h0 ++ h) n payload)
                 = Some (value (entry (StepsCompleted (ledger w)) "policy") "output")) /\
              (is_Some (StepsCompleted (ledger w) !! "role") ->
               exists payload,
                 amazon.CallCreateRole
                   (value (entry (StepsCompleted (ledger w)) "role") "output") payload ∈ cs) /\
              (is_Some (StepsCompleted (ledger w) !! "s3") ->
               amazon.CallCreateS3Bucket
                 (value (entry (StepsCompleted (ledger w)) "s3") "output") ∈ cs))).
  - intros step w c (cs & Hcs & Hb & Hp & Hr & Hs) Hc _.
    exists (cs ++ [c]). cbn [called calls ledger]. rewrite Hcs, <- app_assoc.
    split; [done|]. repeat split.
    + intros Hsome. destruct (Hb Hsome) as (p & r & Hin). exists p, r.
      apply elem_of_app. by left.
    + intros Hsome. destruct (Hp Hsome) as (h & n & payload & rest & -> & Harn).
      exists h, n, payload, (rest ++ [c]). by rewrite <- app_assoc.
    + intros Hsome. destruct (Hr Hsome) as (payload & Hin). exists payload.
      apply elem_of_app. by left.
    + intros Hsome. apply elem_of_app. left. by apply Hs.
  - intros step w c (cs & Hcs & Hb & Hp & Hr & Hs) Hc Hok.
    exists (cs ++ [c]). cbn [calls ledger MarkCompleted StepsCompleted].
    rewrite Hcs, <- app_assoc. split; [done|].
    pose proof (stepCall_kind _ _ _ _ Hc) as Hk. destruct Hok as [_ Hptr].
    destruct c; cbn in Hk; try discriminate Hk; injection Hk as <-;
      cbn [recorded amazon.pointer] in *;
      repeat split; intros Hsome;
      rewrite ?entry_insert_eq, ?entry_insert_ne by done;
      rewrite ?lookup_insert_ne in Hsome by done.
    all: try (destruct (Hb Hsome) as (p & r & Hin); exists p, r;
              apply elem_of_app; by left).
    all: try (destruct (Hp Hsome) as (h & n & pl & rest & -> & Harn);
              eexists h, n, pl, _; split; [|exact Harn];
              rewrite <- app_assoc; reflexivity).
    all: try (destruct (Hr Hsome) as (pl & Hin); exists pl; apply elem_of_app; by left).
    all: try (apply elem_of_app; left; by apply Hs).
    + apply elem_of_app. right. apply list_elem_of_singleton. reflexivity.
    + destruct Hptr as [arn Harn]. eexists cs, _, _, []. split; [reflexivity|].
      rewrite <- Hcs, Harn. reflexivity.
    + eexists. apply elem_of_app. right. apply list_elem_of_singleton. reflexivity.
    + do 2 eexists. apply elem_of_app. right. by apply list_elem_of_singleton.
Qed.

(** X14.  [TearDown] on a ledger that [ForgeApplication] returned, with
    or without an error, touches nothing but what that run made: every
    bucket or role it destroys was created by a call of the run under that
    name, the policy ARN it destroys was returned by a policy creation of
    the run, and it unbinds only if the run made a bind call. *)
Theorem X14_teardown_undoes_only_the_run (a' : AmazonProvider) bytes request w f err w' :
  ForgeApplication rangeOrder a bytes request w = (Val (f, err), w') ->
  exists cs ds,
    calls w' = calls w ++ cs /\
    calls (TearDown a' w').2 = calls w' ++ ds /\
    forall d, d ∈ ds -> undoes (Client a) (calls w) cs d.
Proof.
  intros Hrun.
  destruct (forgeSteps_origin (calls w) (SuperKeySteps request) (started a bytes request w))
    as (cs & Hcs & Hb & Hp & Hr & Hs).
  { exists []. cbn. rewrite app_nil_r. split; [done|].
    repeat split; rewrite lookup_empty; by intros []%is_Some_None. }
  destruct (ForgeApplication_world rangeOrder a bytes request w) as [Hcalls Hsteps].
  rewrite Hrun in Hcalls, Hsteps. cbn [snd] in Hcalls, Hsteps.
  rewrite <- Hsteps in Hb, Hp, Hr, Hs.
  exists cs, (teardownCalls (ledger w')). split; [congruence|].
  rewrite TearDown_run. split; [done|].
  intros d Hd. apply teardownCalls_elem in Hd
    as [[Hsome ->] | [[Hsome ->] | [[Hsome ->] | [Hsome ->]]]]; cbn [undoes]; auto.
Qed.

End ForgeThenTearDown.

Lemma X14_teardown_undoes_only_the_run_witness :
  exists cs ds,
    calls (called beforeRole roleCall) = calls (blankWorld noRoleProvider) ++ cs /\
    calls (TearDown okProvider (called beforeRole roleCall)).2
    = calls (called beforeRole roleCall) ++ ds /\
    forall d, d ∈ ds -> undoes (Client noRoleProvider) (calls (blankWorld noRoleProvider)) cs d.
Proof.
  apply (X14_teardown_undoes_only_the_run listOrder noRoleProvider okProvider sampleBytes
           sampleRequest (blankWorld noRoleProvider) (ledger beforeRole)
           (Some "AccessDenied") (called beforeRole roleCall)).
  vm_compute. reflexivity.
Defined.

Lemma answeredOk_succeeded (cl : amazon.Client) h c :
  answeredOk cl h c = true <-> succeeded cl h c.
Proof.
  unfold answeredOk, succeeded.
  destruct (amazon.failure cl h c) as [e|]; [split; [done | by intros [? _]]|].
  destruct c; try (split; done);
    destruct (amazon.pointer cl h _) as [v|]; split; try done; eauto;
    by intros [_ []%is_Some_None].
Qed.

Lemma successes_snoc (cl : amazon.Client) h cs c :
  successes cl h (cs ++ [c]) =
    successes cl h cs ++ (if answeredOk cl (h ++ cs) c then [c] else []).
Proof.
  revert h. induction cs as [|c0 cs IH]; intros h; cbn [successes app].
  - rewrite app_nil_r. by destruct (answeredOk cl h c).
  - rewrite IH, <- app_assoc. cbn [app]. by destruct (answeredOk cl h c0).
Qed.

Lemma successes_elem (cl : amazon.Client) h cs c :
  c ∈ successes cl h cs -> c ∈ cs.
Proof.
  revert h. induction cs as [|c0 cs IH]; intros h; cbn [successes]; [done|].
  destruct (answeredOk cl h c0); rewrite ?elem_of_cons; intros Hin.
  - destruct Hin as [-> | Hin]; [by left | right; eauto].
  - right; eauto.
Qed.

Section NothingLeftBehind.

Variable rangeOrder : list amazon.Call -> gmap string string -> list (string * string).
Variable a : AmazonProvider.

Lemma stepCall_names step w c :
  stepCall rangeOrder step w = Some c ->
  match c with
  | amazon.CallCreateS3Bucket n =>
      n = getShortName (ApplicationType (Request (ledger w))) +:+ "-bucket-"
          +:+ GUID (ledger w)
  | amazon.CallCreateRole n _ =>
      n = getShortName (ApplicationType (Request (ledger w))) +:+ "-role-"
          +:+ GUID (ledger w)
  | _ => True
  end.
Proof. unfold stepCall. repeat case_decide; by intros [= <-]. Qed.

Lemma forgeSteps_keepsTrack (h0 : list amazon.Call) (request : CreateRequest) (g : string)
    steps w :
  keepsTrack (Client a) h0 request g w ->
  keepsTrack (Client a) h0 request g (forgeSteps rangeOrder a steps w).2.
Proof.
  revert w. apply (forgeSteps_invariant rangeOrder a (keepsTrack (Client a) h0 request g)).
  - intros step w c (Hreq & Hg & cs & Hcs & HA & HB & HC & HD & HE) Hc Hn.
    pose proof (stepCall_names _ _ _ Hc) as Hname. rewrite Hreq, Hg in Hname.
    split; [done|]. split; [done|]. cbn [called ledger calls].
    exists (cs ++ [c]). rewrite Hcs, <- app_assoc. split; [done|].
    split; [|split; [|split; [|by split]]].
    + intros n [Hin | Heq%list_elem_of_singleton]%elem_of_app; [auto|].
      subst c. exact Hname.
    + intros n p [Hin | Heq%list_elem_of_singleton]%elem_of_app; [eauto|].
      subst c. exact Hname.
    + intros c'. rewrite successes_snoc, <- Hcs.
      destruct (answeredOk (Client a) (calls w) c) eqn:Hok.
      * by apply answeredOk_succeeded in Hok.
      * rewrite app_nil_r. apply HC.
  - intros step w c (Hreq & Hg & cs & Hcs & HA & HB & HC & HD & HE) Hc Hok.
    pose proof (stepCall_names _ _ _ Hc) as Hname. rewrite Hreq, Hg in Hname.
    pose proof (stepCall_kind _ _ _ _ Hc) as Hk.
    split; [done|]. split; [done|].
    cbn [ledger calls MarkCompleted StepsCompleted].
    exists (cs ++ [c]). rewrite Hcs, <- app_assoc. split; [done|].
    split; [|split; [|split; [|split]]].
    + intros n [Hin | Heq%list_elem_of_singleton]%elem_of_app; [auto|].
      subst c. exact Hname.
    + intros n p [Hin | Heq%list_elem_of_singleton]%elem_of_app; [eauto|].
      subst c. exact Hname.
    + intros c'. rewrite successes_snoc, <- Hcs.
      apply answeredOk_succeeded in Hok. rewrite Hok.
      intros [Hin | ->%list_elem_of_singleton]%elem_of_app.
      * destruct (HC c' Hin) as (k & Hkind & Hsome). exists k. split; [done|].
        rewrite lookup_insert. by case_decide.
      * exists (Name step). split; [done|]. rewrite lookup_insert_eq. eauto.
    + intros Hsome. destruct (decide (Name step = "s3")) as [Hs3 | Hs3].
      * rewrite Hs3, entry_insert_eq. rewrite Hs3 in Hk.
        destruct c; cbn in Hk; try discriminate Hk. cbn [recorded]. by rewrite Hname.
      * rewrite entry_insert_ne by done. apply HD.
        by rewrite lookup_insert_ne in Hsome.
    + intros Hsome. destruct (decide (Name step = "role")) as [Hrole | Hrole].
      * rewrite Hrole, entry_insert_eq. rewrite Hrole in Hk.
        destruct c; cbn in Hk; try discriminate Hk. cbn [recorded]. by rewrite Hname.
      * rewrite entry_insert_ne by done. apply HE.
        by rewrite lookup_insert_ne in Hsome.
Qed.

Lemma keepsTrack_undoneBy (h0 : list amazon.Call) (request : CreateRequest) (g : string) w :
  keepsTrack (Client a) h0 request g w ->
  exists cs, calls w = h0 ++ cs /\
    forall c, c ∈ successes (Client a) h0 cs -> undoneBy (ledger w) c.
Proof.
  intros (Hreq & Hg & cs & Hcs & HA & HB & HC & HD & HE).
  exists cs. split; [done|]. intros c Hin.
  destruct (HC c Hin) as (k & Hkind & Hsome).
  pose proof (successes_elem _ _ _ _ Hin) as Hcs'.
  unfold undoneBy, teardownCalls.
  destruct c; cbn in Hkind; try done; injection Hkind as <-.
  - rewrite (HA _ Hcs'), <- (HD Hsome). rewrite !elem_of_app. do 3 right.
    rewrite decide_True by done. by apply list_elem_of_singleton.
  - eexists. rewrite !elem_of_app. right; left.
    rewrite decide_True by done. by apply list_elem_of_singleton.
  - rewrite (HB _ _ Hcs'), <- (HE Hsome). rewrite !elem_of_app. right; right; left.
    rewrite decide_True by done. by apply list_elem_of_singleton.
  - do 2 eexists. rewrite !elem_of_app. left.
    rewrite decide_True by done. by apply list_elem_of_singleton.
Qed.

(** X15.  [TearDown] on a ledger that [ForgeApplication] returned leaves
    no bucket and no role of the run behind: for every creation call of
    the run that succeeded it destroys the bucket or the role of that very
    name, for every bind that succeeded it unbinds, and when a policy was
    created it destroys a policy (the one recorded last). *)
Theorem X15_teardown_covers_the_run bytes request w f err w' :
  ForgeApplication rangeOrder a bytes request w = (Val (f, err), w') ->
  exists cs,
    calls w' = calls w ++ cs /\
    forall c, c ∈ successes (Client a) (calls w) cs -> undoneBy f c.
Proof.
  intros Hrun.
  destruct (keepsTrack_undoneBy (calls w) request (generateGUID bytes)
              (forgeSteps rangeOrder a (SuperKeySteps request) (started a bytes request w)).2)
    as (cs & Hcs & Hall).
  { apply forgeSteps_keepsTrack. split; [done|]. split; [done|].
    exists []. cbn [started calls ledger newLedger StepsCompleted successes].
    rewrite app_nil_r. split; [done|].
    repeat split; try (rewrite lookup_empty; by intros []%is_Some_None);
      intros ? ? ; try intros ?;
      match goal with Hnil : _ ∈ [] |- _ => by apply elem_of_nil in Hnil end. }
  destruct (ForgeApplication_world rangeOrder a bytes request w) as [Hcalls Hsteps].
  rewrite Hrun in Hcalls, Hsteps. cbn [snd] in Hcalls, Hsteps.
  exists cs. split; [congruence|]. intros c Hin. specialize (Hall c Hin).
  assert (Hf : ledger w' = f).
  { rewrite ForgeApplication_run in Hrun.
    destruct (forgeSteps rangeOrder a (SuperKeySteps request) _) as [[[e|]|] w1];
      by inversion Hrun. }
  rewrite <- Hf. unfold undoneBy, teardownCalls in *. by rewrite Hsteps.
Qed.

End NothingLeftBehind.

Lemma X15_teardown_covers_the_run_witness :
  exists cs,
    calls (called beforeRole roleCall) = calls (blankWorld noRoleProvider) ++ cs /\
    forall c, c ∈ successes (Client noRoleProvider) (calls (blankWorld noRoleProvider)) cs ->
              undoneBy (ledger beforeRole) c.
Proof.
  apply (X15_teardown_covers_the_run listOrder noRoleProvider sampleBytes sampleRequest
           (blankWorld noRoleProvider) (ledger beforeRole) (Some "AccessDenied")
           (called beforeRole roleCall)).
  vm_compute. reflexivity.
Defined.

(** ** More on teardown *)

Lemma failures_length (cl : amazon.Client) h cs :
  length (failures cl h cs) <= length cs.
Proof.
  revert h. induction cs as [|c cs IH]; intros h; cbn [failures length]; [done|].
  specialize (IH (h ++ [c])). destruct (amazon.failure cl h c); cbn [length]; lia.
Qed.

Lemma failures_nil (cl : amazon.Client) h cs :
  failures cl h cs = [] <->
  forall h1 c h2, cs = h1 ++ c :: h2 -> amazon.failure cl (h ++ h1) c = None.
Proof.
  revert h. induction cs as [|c0 cs IH]; intros h; cbn [failures].
  - split; [|done]. intros _ h1 c1 h2 Heq. by destruct h1.
  - split.
    + destruct (amazon.failure cl h c0) eqn:He; [done|]. intros Hnil h1 c1 h2 Heq.
      destruct h1 as [|c2 h1]; cbn [app] in Heq; injection Heq as <- Hcs.
      * by rewrite app_nil_r.
      * pose proof (proj1 (IH _) Hnil h1 c1 h2 Hcs) as Hnone.
        by rewrite <- app_assoc in Hnone.
    + intros Hall. pose proof (Hall [] c0 cs eq_refl) as H0.
      rewrite app_nil_r in H0. rewrite H0.
      apply IH. intros h1 c1 h2 ->. rewrite <- app_assoc. by apply (Hall (c0 :: h1) c1 h2).
Qed.

Lemma teardownCalls_kinds (f : Ledger) :
  omap cleanupKind (teardownCalls f)
  = filter (fun k => is_Some (StepsCompleted f !! k)) teardownOrder /\
  length (teardownCalls f) = length (omap cleanupKind (teardownCalls f)).
Proof.
  unfold teardownCalls, teardownOrder. rewrite !filter_cons, filter_nil.
  repeat case_decide; done.
Qed.

(** X16.  [TearDown] returns the empty list exactly when every cleanup
    call it made was answered without an error. *)
Theorem X16_teardown_clean_iff_all_calls_clean (a : AmazonProvider) (w : World) :
  (TearDown a w).1 = Val [] <->
  forall h1 c h2,
    teardownCalls (ledger w) = h1 ++ c :: h2 ->
    amazon.failure (Client a) (calls w ++ h1) c = None.
Proof.
  rewrite TearDown_run. cbn [fst]. rewrite <- failures_nil. split; [by intros [= ->]|].
  by intros ->.
Qed.

(** X17.  For every ledger, [TearDown] takes the kinds [bind_role],
    [policy], [role], [s3] in this order, makes one call for each kind
    that has an entry and none for the others (so four at most), and
    returns at most as many errors as it made calls. *)
Theorem X17_teardown_order_on_any_ledger (a : AmazonProvider) (w : World) :
  exists errs ds,
    (TearDown a w).1 = Val errs /\
    calls (TearDown a w).2 = calls w ++ ds /\
    omap cleanupKind ds
    = filter (fun k => is_Some (StepsCompleted (ledger w) !! k)) teardownOrder /\
    length ds = length (omap cleanupKind ds) /\
    length ds <= 4 /\
    length errs <= length ds.
Proof.
  rewrite TearDown_run. do 2 eexists. split; [reflexivity|]. split; [reflexivity|].
  destruct (teardownCalls_kinds (ledger w)) as [Hkinds Hlen].
  split; [done|]. split; [done|]. split; [|apply failures_length].
  rewrite Hlen, Hkinds.
  etrans; [apply length_filter|]. done.
Qed.



Section RollBack.

Variable rangeOrder : list amazon.Call -> gmap string string -> list (string * string).
Variable a : AmazonProvider.

(** X19.  Rolling back a failed run: when step [k] is the first whose call
    fails, [TearDown] on the world [ForgeApplication] leaves acts on
    exactly the kinds of the recognized steps before [k], in the order
    [bind_role], [policy], [role], [s3], one call for each. *)
Theorem X19_rollback_after_failed_step (a' : AmazonProvider) bytes request w
    pre step post wk c err :
  SuperKeySteps request = pre ++ step :: post ->
  forgeSteps rangeOrder a pre (started a bytes request w) = (Val None, wk) ->
  stepCall rangeOrder step wk = Some c ->
  amazon.failure (Client a) (calls wk) c = Some err ->
  exists ds,
    calls (TearDown a' (ForgeApplication rangeOrder a bytes request w).2).2
    = calls wk ++ [c] ++ ds /\
    omap cleanupKind ds = filter (fun k => k ∈ recordedNames pre) teardownOrder /\
    length ds = length (omap cleanupKind ds).
Proof.
  intros Hsteps Hpre Hc He.
  assert (Hrun : ForgeApplication rangeOrder a bytes request w
                 = (Val (ledger wk, Some err), called wk c)).
  { rewrite ForgeApplication_run, Hsteps, forgeSteps_app, Hpre, forgeSteps_cons.
    by rewrite (forgeStep_fail _ _ _ _ _ _ Hc He). }
  rewrite Hrun, TearDown_run. cbn [snd called calls ledger].
  exists (teardownCalls (ledger wk)). rewrite <- app_assoc. split; [done|].
  destruct (teardownCalls_kinds (ledger wk)) as [Hkinds Hlen]. split; [|done].
  rewrite Hkinds. apply list_filter_iff. intros k.
  rewrite <- elem_of_dom, (forgeSteps_dom _ _ _ _ _ Hpre).
  cbn [started ledger newLedger StepsCompleted].
  by rewrite dom_empty_L, (left_id_L ∅ (∪)).
Qed.

(** X20.  When no [policy] or [role] step follows a [bind_role] step whose
    call succeeded, [TearDown] on the returned ledger unbinds the very
    pair, policy ARN and role name, that the step bound. *)
Theorem X20_unbind_mirrors_bind bytes request w pre step post wk p r f err w' :
  SuperKeySteps request = pre ++ step :: post ->
  forgeSteps rangeOrder a pre (started a bytes request w) = (Val None, wk) ->
  stepCall rangeOrder step wk = Some (amazon.CallBindPolicyToRole p r) ->
  amazon.BindPolicyToRole (Client a) (calls wk) p r = None ->
  "policy" ∉ (Name <$> post) ->
  "role" ∉ (Name <$> post) ->
  ForgeApplication rangeOrder a bytes request w = (Val (f, err), w') ->
  amazon.CallUnBindPolicyToRole p r ∈ teardownCalls f.
Proof.
  intros Hsteps Hpre Hc He Hnp Hnr Hrun.
  assert (Hok : succeeded (Client a) (calls wk) (amazon.CallBindPolicyToRole p r))
    by done.
  pose proof (stepCall_kind _ _ _ _ Hc) as Hk. cbn in Hk. injection Hk as Hk.
  assert (Hargs : p = value (entry (StepsCompleted (ledger wk)) "policy") "output" /\
                  r = value (entry (StepsCompleted (ledger wk)) "role") "output").
  { unfold stepCall in Hc. repeat case_decide; by simplify_eq. }
  destruct Hargs as [-> ->].
  destruct (ForgeApplication_world rangeOrder a bytes request w) as [_ Hfinal].
  assert (Hf : ledger w' = f).
  { rewrite ForgeApplication_run in Hrun.
    destruct (forgeSteps rangeOrder a (SuperKeySteps request) _) as [[[e|]|] w1];
      by inversion Hrun. }
  rewrite Hrun in Hfinal. cbn [snd] in Hfinal. rewrite Hf in Hfinal.
  rewrite Hsteps, forgeSteps_app, Hpre, forgeSteps_cons in Hfinal.
  rewrite (forgeStep_records _ _ _ _ _ Hc Hok) in Hfinal.
  set (w1 := {| ledger := MarkCompleted (ledger wk) (Name step) _; calls := _ |}) in Hfinal.
  destruct (forgeSteps_entries rangeOrder a post w1 "policy") as [Hpol _].
  destruct (forgeSteps_entries rangeOrder a post w1 "role") as [Hrole _].
  destruct (forgeSteps_entries rangeOrder a post w1 "bind_role") as [_ Hbind].
  specialize (Hpol Hnp). specialize (Hrole Hnr).
  rewrite <- Hfinal in Hpol, Hrole, Hbind.
  subst w1. cbn [ledger MarkCompleted StepsCompleted] in Hpol, Hrole, Hbind.
  rewrite <- Hk in Hpol, Hrole, Hbind.
  rewrite lookup_insert_ne in Hpol by done. rewrite lookup_insert_ne in Hrole by done.
  rewrite lookup_insert_eq in Hbind.
  unfold teardownCalls, entry. rewrite Hpol, Hrole.
  rewrite (decide_True (P := is_Some (_ !! "bind_role"))) by eauto.
  rewrite !elem_of_app. left. by apply list_elem_of_singleton.
Qed.

End RollBack.

Lemma X19_rollback_after_failed_step_witness :
  exists ds,
    calls (TearDown okProvider
             (ForgeApplication listOrder noRoleProvider sampleBytes sampleRequest
                (blankWorld noRoleProvider)).2).2
    = calls beforeRole ++ [roleCall] ++ ds /\
    omap cleanupKind ds = ["policy"; "s3"].
Proof.
  destruct (X19_rollback_after_failed_step listOrder noRoleProvider okProvider sampleBytes
              sampleRequest (blankWorld noRoleProvider) rolePrefix stepRole [stepBind]
              beforeRole roleCall "AccessDenied") as (ds & Hcalls & Hkinds & _).
  - reflexivity.
  - vm_compute. reflexivity.
  - vm_compute. reflexivity.
  - reflexivity.
  - exists ds. split; [exact Hcalls|]. rewrite Hkinds. vm_compute. reflexivity.
Defined.

Lemma X20_unbind_mirrors_bind_witness :
  amazon.CallUnBindPolicyToRole
    (arnOf "policy" "redhat-cost-management-policy-0123456789abcdef")
    "redhat-cost-management-role-0123456789abcdef"
  ∈ teardownCalls
      (ledger (ForgeApplication listOrder okProvider sampleBytes sampleRequest
                 (blankWorld okProvider)).2).
Proof.
  apply (X20_unbind_mirrors_bind listOrder okProvider sampleBytes sampleRequest
           (blankWorld okProvider) [stepS3; stepPolicy; stepOther; stepRole] stepBind []
           (forgeSteps listOrder okProvider [stepS3; stepPolicy; stepOther; stepRole]
              (started okProvider sampleBytes sampleRequest (blankWorld okProvider))).2
           (arnOf "policy" "redhat-cost-management-policy-0123456789abcdef")
           "redhat-cost-management-role-0123456789abcdef"
           (ledger (ForgeApplication listOrder okProvider sampleBytes sampleRequest
                      (blankWorld okProvider)).2)
           None
           (ForgeApplication listOrder okProvider sampleBytes sampleRequest
              (blankWorld okProvider)).2).
  - reflexivity.
  - vm_compute. reflexivity.
  - vm_compute. reflexivity.
  - reflexivity.
  - apply not_elem_of_nil.
  - apply not_elem_of_nil.
  - vm_compute. reflexivity.
Defined.
